(** * The zkML worker template and the SDK entry module

    A shallow embedding of

    - [create-aleo-app/template-react-zkml/src/workers/worker.js], the browser
      worker that builds a program manager over a caching key provider and
      exposes five methods through comlink, and
    - [sdk/src/index.js], the entry module of the SDK.

    The worker is glue code: every line is a call into ["@aleohq/sdk"] or
    ["comlink"].  It is embedded as a program in a state, exception and trace
    monad.  The state is the JavaScript heap of the objects the worker creates
    (objects have identity, so two names of one key provider share its cache),
    the trace is the list of calls the worker makes into the imported modules,
    in program order, and an exception is a JavaScript [throw] (a rejected
    promise, for the [async] functions).  What the imported functions compute
    is a parameter of the development, the class [Sdk].

    An [await] is sequential composition: each call of an exposed method is
    run to completion, and the interleaving of two calls at their [await]s is
    outside the model. *)

From Stdlib Require Import QArith Ascii.
From stdpp Require Import gmap strings list fin_maps.

Local Open Scope string_scope.
Local Open Scope stdpp_scope.

(** ** Completions *)

(** What a thrown value carries: the message of the [Error]. *)
Inductive Err : Type :=
  | Error (message : string).

(** The completion of a JavaScript call: a value, or a [throw]. *)
Inductive Completion (A : Type) : Type :=
  | Return (a : A)
  | Throw (e : Err).
Arguments Return {A} a.
Arguments Throw {A} e.

(** ** The imported SDK *)

(** The classes of ["@aleohq/sdk"] whose values the worker only passes on. *)
Class SdkTypes : Type := {
  Program : Type;
  PrivateKey : Type;
  ProvingKey : Type;
  VerifyingKey : Type;
  KeyPair : Type;
  ExecutionResponse : Type;
  Outputs : Type;
  Account : Type;
}.

(** A JavaScript object reference. *)
Abbreviation loc := nat.

Section Objects.
Context `{SdkTypes}.

(** [FunctionKeyPair]: the array [[provingKey, verifyingKey]]. *)
Definition FunctionKeyPair : Type := ProvingKey * VerifyingKey.

(** Modelled from the spec: [AleoKeyProvider] is a class of ["@aleohq/sdk"],
    whose code is not under src/.  The spec describes it as "the
    proving/verifying key cache (content-addressed by program id + function
    name ...)" behind a "key-provider caching layer": a switch that
    [useCache] sets, and a finite map from cache keys to key pairs. *)
Record KeyProvider : Type := {
  cacheOption : bool;
  cache : gmap string FunctionKeyPair;
}.

(** Modelled from the spec: [AleoKeyProviderParams] is a class of
    ["@aleohq/sdk"]; the worker builds it from [{cacheKey: ...}] and reads
    [.cacheKey] back. *)
Record AleoKeyProviderParams : Type := {
  cacheKey : string;
}.

(** Modelled from the spec: the fields of a [ProgramManager] that the worker
    passes to its constructor, sets with [setAccount], or reads
    ([programManager.keyProvider]). *)
Record ProgramManager : Type := {
  pm_host : string;
  pm_keyProvider : loc;
  pm_recordProvider : option loc;
  pm_account : option loc;
}.

(** The objects on the heap. *)
Inductive Obj : Type :=
  | OKeyProvider (kp : KeyProvider)
  | OProgramManager (pm : ProgramManager)
  | OAccount (a : Account)
  | ONetworkClient (host : string)
  | ORecordProvider (acct client : loc).

(** The ten positional arguments of [programManager.executeOffline], as the
    worker passes them; [None] is [undefined]. *)
Record ExecuteOfflineArgs : Type := {
  eo_program : string;
  eo_function : string;
  eo_inputs : list string;
  eo_proveExecution : bool;
  eo_imports : option (list (string * string));
  eo_keySearchParams : AleoKeyProviderParams;
  eo_provingKey : option ProvingKey;
  eo_verifyingKey : option VerifyingKey;
  eo_privateKey : option PrivateKey;
  eo_cacheFunctionKeys : bool;
}.

(** The values that cross the comlink channel. *)
Inductive Value : Type :=
  | VUndefined
  | VString (s : string)
  | VStrings (l : list string)
  | VBool (b : bool)
  | VKey (k : PrivateKey)
  | VPair (outputs : Outputs) (execution : string).
End Objects.

(** What the imported functions compute.  A method of a program manager sees
    the heap and the manager it is called on.  [synthesizeKeys],
    [executeOffline] and [verifyExecution] read them only: the keys they make
    come back in their results, and the worker stores them itself (lines 43
    and 75).  [deploy] gets the keys it needs through the key provider of its
    manager and may leave them there: besides its completion it gives the
    cache that provider is left with.  Randomness ([new PrivateKey()],
    [new Account()]) is drawn from a counter of the world. *)
Class Sdk `{SdkTypes} : Type := {
  sdk_initThreadPool : Completion unit;
  (** the state of a key provider that was just constructed *)
  sdk_newKeyProvider : KeyProvider;
  (** the settlement of [fetchKeys(proverUrl, verifierUrl)] on a provider: the
      promise's completion, and the cache the provider is left with *)
  sdk_fetchKeys : string → string → KeyProvider →
                  Completion FunctionKeyPair * gmap string FunctionKeyPair;
  sdk_Program_fromString : string → Completion Program;
  sdk_Program_id : Program → string;
  sdk_newPrivateKey : nat → PrivateKey;
  sdk_newAccount : option string → nat → Completion Account;
  sdk_synthesizeKeys : gmap loc Obj → loc → string → string → list string →
                       PrivateKey → Completion FunctionKeyPair;
  sdk_executeOffline : gmap loc Obj → loc → ExecuteOfflineArgs →
                       Completion ExecutionResponse;
  sdk_getKeys : ExecutionResponse → string → string → Completion KeyPair;
  sdk_provingKey : KeyPair → Completion ProvingKey;
  sdk_verifyingKey : KeyPair → Completion VerifyingKey;
  sdk_getOutputs : ExecutionResponse → Outputs;
  sdk_toString : ExecutionResponse → string;
  sdk_ExecutionResponse_fromString : string → Completion ExecutionResponse;
  sdk_verifyExecution : gmap loc Obj → loc → ExecutionResponse → Completion bool;
  sdk_deploy : gmap loc Obj → loc → string → Q →
               Completion string * gmap string FunctionKeyPair;
  (** [sample_inputs], imported from ["../variables.js"] *)
  sample_inputs : list string;
  (** the JavaScript runtime: the methods an object literal inherits from
      [Object.prototype] ([toString], [hasOwnProperty], ...), as applied to
      the exposed object.  On the plain values that cross the channel they
      answer or throw, and touch neither the SDK nor the worker's objects *)
  Object_prototype : string → option (list Value → Completion Value);
}.

(** ** Calls, worlds and the worker monad *)

Section Worker.
Context `{Sdk}.

(** The calls the worker makes into ["@aleohq/sdk"] and ["comlink"], with
    their arguments.  [this] is the object a method is called on, or the
    object a constructor creates. *)
Inductive Call : Type :=
  | CInitThreadPool
  | CNewKeyProvider (this : loc)
  | CUseCache (this : loc) (useCache : bool)
  | CFetchKeys (this : loc) (proverUrl verifierUrl : string)
  | CContainsKeys (this : loc) (keyId : string)
  | CCacheKeys (this : loc) (keyId : string) (keys : FunctionKeyPair)
  | CNewKeyProviderParams (params : AleoKeyProviderParams)
  | CNewProgramManager (this : loc) (host : string) (kp : loc) (rp : option loc)
  | CSetAccount (this : loc) (acct : loc)
  | CNewAccount (privateKey : option string)
  | CNewPrivateKey
  | CNewNetworkClient (this : loc) (host : string)
  | CNewRecordProvider (this : loc) (acct client : loc)
  | CProgramFromString (source : string)
  | CProgramId (program : Program)
  | CSynthesizeKeys (this : loc) (program function : string)
                    (inputs : list string) (privateKey : PrivateKey)
  | CExecuteOffline (this : loc) (args : ExecuteOfflineArgs)
  | CGetKeys (response : ExecutionResponse) (programId function : string)
  | CVerifyingKey (keys : KeyPair)
  | CProvingKey (keys : KeyPair)
  | CGetOutputs (response : ExecutionResponse)
  | CToString (response : ExecutionResponse)
  | CExecutionResponseFromString (execution : string)
  | CVerifyExecution (this : loc) (response : ExecutionResponse)
  | CDeploy (this : loc) (program : string) (fee : Q)
  | CProxy (key : PrivateKey)
  | CExpose (names : list string).

(** The console: [console.log] and [console.error] with their arguments. *)
Inductive Level : Type := LLog | LError.
Inductive LogArg : Type :=
  | LStr (s : string)
  | LRef (l : loc)
  | LErr (e : Err)
  | LResponse (r : ExecutionResponse).

(** The world of the worker: the heap, the randomness counter, the console,
    and the [fetchKeys] promises that have not settled yet. *)
Record World : Type := {
  heap : gmap loc Obj;
  rng : nat;
  console : list (Level * list LogArg);
  pending : list (loc * string * string);
}.

Definition with_heap (h : gmap loc Obj) (w : World) : World :=
  {| heap := h; rng := rng w; console := console w; pending := pending w |}.

(** What running a piece of the worker yields: its completion, the world it
    leaves, and the calls it made. *)
Record Outcome (A : Type) : Type := {
  result : Completion A;
  final : World;
  trace : list Call;
}.
Arguments result {A} _.
Arguments final {A} _.
Arguments trace {A} _.

Definition M (A : Type) : Type := World → Outcome A.

#[export] Instance M_ret : MRet M := λ A a w,
  {| result := Return a; final := w; trace := [] |}.

(** Sequencing: a [throw] skips the rest; the calls made so far and the
    world reached stay. *)
#[export] Instance M_bind : MBind M := λ A B f m w,
  match m w with
  | {| result := Return a; final := w'; trace := t |} =>
      match f a w' with
      | {| result := r; final := w''; trace := t' |} =>
          {| result := r; final := w''; trace := t ++ t' |}
      end
  | {| result := Throw e; final := w'; trace := t |} =>
      {| result := Throw e; final := w'; trace := t |}
  end.

Definition call (c : Call) : M unit := λ w,
  {| result := Return (); final := w; trace := [c] |}.

Definition complete {A} (c : Completion A) : M A := λ w,
  {| result := c; final := w; trace := [] |}.

Definition get_heap : M (gmap loc Obj) := λ w,
  {| result := Return (heap w); final := w; trace := [] |}.

Definition store (l : loc) (o : Obj) : M unit := λ w,
  {| result := Return (); final := with_heap (<[l := o]> (heap w)) w; trace := [] |}.

(** [new]: the object gets a reference no live object has. *)
Definition alloc (o : Obj) : M loc := λ w,
  let l := fresh (dom (heap w)) in
  {| result := Return l; final := with_heap (<[l := o]> (heap w)) w; trace := [] |}.

Definition draw : M nat := λ w,
  {| result := Return (rng w);
     final := {| heap := heap w; rng := S (rng w);
                 console := console w; pending := pending w |};
     trace := [] |}.

Definition console_write (lv : Level) (args : list LogArg) : M unit := λ w,
  {| result := Return ();
     final := {| heap := heap w; rng := rng w;
                 console := console w ++ [(lv, args)]; pending := pending w |};
     trace := [] |}.

Definition console_log := console_write LLog.
Definition console_error := console_write LError.

(** Reading a property of something that is not the expected object is a
    [TypeError]. *)
Definition read_keyProvider (l : loc) : M KeyProvider := λ w,
  complete (match heap w !! l with
            | Some (OKeyProvider kp) => Return kp
            | _ => Throw (Error "TypeError")
            end) w.

Definition read_programManager (l : loc) : M ProgramManager := λ w,
  complete (match heap w !! l with
            | Some (OProgramManager pm) => Return pm
            | _ => Throw (Error "TypeError")
            end) w.

(** *** The SDK's classes, as the worker calls them *)

Definition initThreadPool : M unit :=
  call CInitThreadPool;; complete sdk_initThreadPool.

Definition new_AleoKeyProvider : M loc :=
  l ← alloc (OKeyProvider sdk_newKeyProvider);
  call (CNewKeyProvider l);;
  mret l.

Definition useCache (this : loc) (b : bool) : M unit :=
  call (CUseCache this b);;
  kp ← read_keyProvider this;
  store this (OKeyProvider {| cacheOption := b; cache := cache kp |}).

Definition containsKeys (this : loc) (keyId : string) : M bool :=
  call (CContainsKeys this keyId);;
  kp ← read_keyProvider this;
  mret (bool_decide (is_Some (cache kp !! keyId))).

Definition cacheKeys (this : loc) (keyId : string) (keys : FunctionKeyPair) : M unit :=
  call (CCacheKeys this keyId keys);;
  kp ← read_keyProvider this;
  store this (OKeyProvider {| cacheOption := cacheOption kp;
                              cache := <[keyId := keys]> (cache kp) |}).

(** [fetchKeys] returns a promise at once; it settles later ([settle]). *)
Definition enqueue (p : loc * string * string) : M unit := λ w,
  {| result := Return ();
     final := {| heap := heap w; rng := rng w; console := console w;
                 pending := pending w ++ [p] |};
     trace := [] |}.

Definition fetchKeys (this : loc) (proverUrl verifierUrl : string) : M unit :=
  call (CFetchKeys this proverUrl verifierUrl);;
  enqueue (this, proverUrl, verifierUrl).

Definition new_AleoKeyProviderParams (key : string) : M AleoKeyProviderParams :=
  let params := {| cacheKey := key |} in
  call (CNewKeyProviderParams params);;
  mret params.

Definition new_ProgramManager (host : string) (kp : loc) (rp : option loc) : M loc :=
  l ← alloc (OProgramManager {| pm_host := host; pm_keyProvider := kp;
                                pm_recordProvider := rp; pm_account := None |});
  call (CNewProgramManager l host kp rp);;
  mret l.

Definition setAccount (this : loc) (acct : loc) : M unit :=
  call (CSetAccount this acct);;
  pm ← read_programManager this;
  store this (OProgramManager {| pm_host := pm_host pm;
                                 pm_keyProvider := pm_keyProvider pm;
                                 pm_recordProvider := pm_recordProvider pm;
                                 pm_account := Some acct |}).

Definition new_Account (privateKey : option string) : M loc :=
  call (CNewAccount privateKey);;
  seed ← draw;
  a ← complete (sdk_newAccount privateKey seed);
  alloc (OAccount a).

Definition new_PrivateKey : M PrivateKey :=
  call CNewPrivateKey;;
  seed ← draw;
  mret (sdk_newPrivateKey seed).

Definition new_AleoNetworkClient (host : string) : M loc :=
  l ← alloc (ONetworkClient host);
  call (CNewNetworkClient l host);;
  mret l.

Definition new_NetworkRecordProvider (acct client : loc) : M loc :=
  l ← alloc (ORecordProvider acct client);
  call (CNewRecordProvider l acct client);;
  mret l.

Definition Program_fromString (source : string) : M Program :=
  call (CProgramFromString source);;
  complete (sdk_Program_fromString source).

Definition Program_id (p : Program) : M string :=
  call (CProgramId p);;
  mret (sdk_Program_id p).

Definition ProgramManager_synthesizeKeys (this : loc) (program function : string)
    (inputs : list string) (pk : PrivateKey) : M FunctionKeyPair :=
  call (CSynthesizeKeys this program function inputs pk);;
  h ← get_heap;
  complete (sdk_synthesizeKeys h this program function inputs pk).

Definition ProgramManager_executeOffline (this : loc) (args : ExecuteOfflineArgs)
    : M ExecutionResponse :=
  call (CExecuteOffline this args);;
  h ← get_heap;
  complete (sdk_executeOffline h this args).

Definition ProgramManager_verifyExecution (this : loc) (r : ExecutionResponse) : M bool :=
  call (CVerifyExecution this r);;
  h ← get_heap;
  complete (sdk_verifyExecution h this r).

Definition ProgramManager_deploy (this : loc) (program : string) (fee : Q) : M string :=
  call (CDeploy this program fee);;
  h ← get_heap;
  pm ← read_programManager this;
  kp ← read_keyProvider (pm_keyProvider pm);
  let r := sdk_deploy h this program fee in
  store (pm_keyProvider pm)
        (OKeyProvider {| cacheOption := cacheOption kp; cache := r.2 |});;
  complete r.1.

Definition getKeys (r : ExecutionResponse) (programId function : string) : M KeyPair :=
  call (CGetKeys r programId function);;
  complete (sdk_getKeys r programId function).

Definition verifyingKey (k : KeyPair) : M VerifyingKey :=
  call (CVerifyingKey k);; complete (sdk_verifyingKey k).

Definition provingKey (k : KeyPair) : M ProvingKey :=
  call (CProvingKey k);; complete (sdk_provingKey k).

Definition getOutputs (r : ExecutionResponse) : M Outputs :=
  call (CGetOutputs r);; mret (sdk_getOutputs r).

Definition toString (r : ExecutionResponse) : M string :=
  call (CToString r);; mret (sdk_toString r).

Definition ExecutionResponse_fromString (execution : string) : M ExecutionResponse :=
  call (CExecutionResponseFromString execution);;
  complete (sdk_ExecutionResponse_fromString execution).

(** comlink's [proxy] marks a value to be passed by reference. *)
Definition proxy (key : PrivateKey) : M PrivateKey :=
  call (CProxy key);; mret key.

Definition expose (names : list string) : M unit :=
  call (CExpose names).

(** ** worker.js *)

Definition api_host : string := "https://api.explorer.aleo.org/v1".
Definition prover_url : string :=
  "https://pub-65a47b199b944d48a057ca6603a415a2.r2.dev/tree_mnist_2.prover.30e265c".
Definition verifier_url : string :=
  "https://pub-65a47b199b944d48a057ca6603a415a2.r2.dev/tree_mnist_2.verifier.17db860".

(** The module-level bindings [keyProvider], [programManager] and [account]
    (lines 20, 35 and 36) that the exposed functions close over. *)
Record Env : Type := {
  keyProvider : loc;
  programManager : loc;
  account : loc;
}.

(** Lines 39-45. *)
Definition synthesizeKeys (env : Env) (program_source aleoFunction : string) : M unit :=
  program ← Program_fromString program_source;
  privateKey ← new_PrivateKey;
  keys ← ProgramManager_synthesizeKeys (programManager env)
           program_source aleoFunction sample_inputs privateKey;
  id ← Program_id program;
  let cacheKey := id +:+ "/" +:+ aleoFunction in
  pm ← read_programManager (programManager env);
  cacheKeys (pm_keyProvider pm) cacheKey keys;;
  console_log [LStr ("Synthesized keys for " +:+ cacheKey)].

(** Lines 47-83. *)
Definition localProgramExecution (env : Env) (program_source aleoFunction : string)
    (inputs : list string) : M (Outputs * string) :=
  program ← Program_fromString program_source;
  id ← Program_id program;
  keySearchParams ← new_AleoKeyProviderParams (id +:+ "/" +:+ aleoFunction);
  pm ← read_programManager (programManager env);
  found ← containsKeys (pm_keyProvider pm) (cacheKey keySearchParams);
  cacheFunctionKeys ←
    (if negb found
     then console_log [LStr ("No cached keys for " +:+ cacheKey keySearchParams)];;
          mret true
     else mret false);
  executionResponse ←
    ProgramManager_executeOffline (programManager env)
      {| eo_program := program_source;
         eo_function := aleoFunction;
         eo_inputs := inputs;
         eo_proveExecution := true;
         eo_imports := None;
         eo_keySearchParams := keySearchParams;
         eo_provingKey := None;
         eo_verifyingKey := None;
         eo_privateKey := None;
         eo_cacheFunctionKeys := cacheFunctionKeys |};
  console_log [LStr "executionResponse"; LResponse executionResponse];;
  (if (cacheFunctionKeys : bool)
   then console_log [LStr "Caching keys"];;
        id' ← Program_id program;
        keys ← getKeys executionResponse id' aleoFunction;
        verifyingKey ← verifyingKey keys;
        pm' ← read_programManager (programManager env);
        provingKey ← provingKey keys;
        cacheKeys (pm_keyProvider pm') (cacheKey keySearchParams)
                  (provingKey, verifyingKey);;
        console_log [LStr ("Cached keys for " +:+ cacheKey keySearchParams)]
   else mret ());;
  console_log [LStr "Getting outputs"];;
  outputs ← getOutputs executionResponse;
  execution ← toString executionResponse;
  mret (outputs, execution).

(** Lines 85-88. *)
Definition getPrivateKey : M PrivateKey :=
  key ← new_PrivateKey;
  proxy key.

(** Lines 90-93. *)
Definition verifyExecution (env : Env) (execution : string) : M bool :=
  executionResponse ← ExecutionResponse_fromString execution;
  ProgramManager_verifyExecution (programManager env) executionResponse.

(** The number literal [1.9] of line 119; nothing is computed from it. *)
Definition fee : Q := 19 # 10.

(** Lines 95-129.  The function's own [keyProvider], [account] and
    [programManager] shadow the module-level ones, here as in the source. *)
Definition deployProgram (program : string) : M string :=
  keyProvider ← new_AleoKeyProvider;
  useCache keyProvider true;;
  networkClient ← new_AleoNetworkClient api_host;
  account ← new_Account (Some "user1PrivateKey");
  recordProvider ← new_NetworkRecordProvider account networkClient;
  programManager ← new_ProgramManager api_host keyProvider (Some recordProvider);
  setAccount programManager account;;
  tx_id ← ProgramManager_deploy programManager program fee;
  mret tx_id.

Definition throw_TypeError {A} : M A := complete (Throw (Error "TypeError")).

(** Line 131: the object [{ deployProgram, getPrivateKey,
    localProgramExecution, synthesizeKeys, verifyExecution }]; each property
    is named after the function it holds.  As in JavaScript, arguments beyond
    a function's parameters are ignored.  The functions are typed by the
    strings and string arrays they are written for: a call that leaves a
    parameter out, or passes a value of another type, is outside the model,
    and stands as a throw. *)
Definition workerMethods : list (string * (Env → list Value → M Value)) :=
  [ ("deployProgram", λ _ args,
       match args with
       | VString program :: _ => tx_id ← deployProgram program; mret (VString tx_id)
       | _ => throw_TypeError
       end);
    ("getPrivateKey", λ _ _,
       key ← getPrivateKey; mret (VKey key));
    ("localProgramExecution", λ env args,
       match args with
       | VString program_source :: VString aleoFunction :: VStrings inputs :: _ =>
           r ← localProgramExecution env program_source aleoFunction inputs;
           mret (VPair r.1 r.2)
       | _ => throw_TypeError
       end);
    ("synthesizeKeys", λ env args,
       match args with
       | VString program_source :: VString aleoFunction :: _ =>
           synthesizeKeys env program_source aleoFunction;; mret VUndefined
       | _ => throw_TypeError
       end);
    ("verifyExecution", λ env args,
       match args with
       | VString execution :: _ => b ← verifyExecution env execution; mret (VBool b)
       | _ => throw_TypeError
       end) ].

(** Lines 17-37 and 132: the evaluation of the module. *)
Definition worker : M Env :=
  initThreadPool;;
  keyProvider ← new_AleoKeyProvider;
  console_log [LStr "keyProvider"; LRef keyProvider];;
  useCache keyProvider true;;
  console_log [LStr "keyProvider"; LRef keyProvider];;
  fetchKeys keyProvider prover_url verifier_url;;
  console_log [LStr "keyProvider after fetchKeys"; LRef keyProvider];;
  useCache keyProvider true;;
  programManager ← new_ProgramManager api_host keyProvider None;
  account ← new_Account None;
  setAccount programManager account;;
  expose (workerMethods.*1);;
  mret {| keyProvider := keyProvider;
          programManager := programManager;
          account := account |}.

(** ** The worker at run time *)

(** A call [proxy.name(...args)] on the main thread reaches the worker as a
    message.  comlink serves it by reading [obj[name]] on the exposed object
    and applying what it finds: one of the object's own five properties,
    else a method inherited from [Object.prototype]; applying [undefined] is
    a [TypeError]. *)
Definition remote_call (env : Env) (name : string) (args : list Value) : M Value :=
  match (list_to_map workerMethods : gmap string _) !! name with
  | Some method => method env args
  | None =>
      match Object_prototype name with
      | Some inherited => complete (inherited args)
      | None => throw_TypeError
      end
  end.

(** The [i]-th pending [fetchKeys] promise settles (lines 27-32): the
    provider is left with the cache the SDK gives it, and the handler of
    [then] or of [catch] writes to the console. *)
Definition dequeue (i : nat) : M (option (loc * string * string)) := λ w,
  {| result := Return (pending w !! i);
     final := {| heap := heap w; rng := rng w; console := console w;
                 pending := take i (pending w) ++ drop (S i) (pending w) |};
     trace := [] |}.

Definition settle (i : nat) : M unit :=
  p ← dequeue i;
  match p with
  | None => mret ()
  | Some (this, proverUrl, verifierUrl) =>
      kp ← read_keyProvider this;
      let r := sdk_fetchKeys proverUrl verifierUrl kp in
      store this (OKeyProvider {| cacheOption := cacheOption kp; cache := r.2 |});;
      match r.1 with
      | Return _ => console_log [LStr "Keys fetched successfully"]
      | Throw e => console_error [LStr "Error fetching keys: "; LErr e]
      end
  end.

(** What happens to a worker once its module is evaluated. *)
Inductive Event : Type :=
  | Invoke (name : string) (args : list Value)
  | Settle (i : nat).

Definition handle (env : Env) (ev : Event) : M unit :=
  match ev with
  | Invoke name args => λ w,
      (* a rejected call is reported to the caller; the worker goes on *)
      let o := remote_call env name args w in
      {| result := Return (); final := final o; trace := trace o |}
  | Settle i => settle i
  end.

(** [reachable w0 env w calls]: started in [w0], the module evaluated to
    the bindings [env], and after some events the worker is in [w], having
    made [calls] in all. *)
Inductive reachable (w0 : World) : Env → World → list Call → Prop :=
  | reachable_start env :
      result (worker w0) = Return env →
      reachable w0 env (final (worker w0)) (trace (worker w0))
  | reachable_step env w calls ev :
      reachable w0 env w calls →
      reachable w0 env (final (handle env ev w)) (calls ++ trace (handle env ev w)).
End Worker.

Arguments result {_ A} _.
Arguments final {_ A} _.
Arguments trace {_ A} _.
Arguments throw_TypeError {_ A}.

(** ** sdk/src/index.js *)

Module Index.
(** A line of the module: an import of names from a module specifier, the
    export list, or a comment. *)
Inductive Line : Type :=
  | LImport (names : list string) (specifier : string)
  | LExport (names : list string)
  | LComment (text : string).

Definition index_js : list Line :=
  [ LImport ["Account"] "./account";
    LImport ["AleoNetworkClient"] "./node_connection";
    LImport ["DevelopmentClient"] "./development_client";
    LImport ["Address"; "PrivateKey"; "Signature"; "ViewKey"] "@aleohq/wasm";
    LExport ["Account"; "Address"; "AleoNetworkClient"; "DevelopmentClient";
             "PrivateKey"; "Signature"; "ViewKey"];
    LComment "# sourceMappingURL=index.js.map" ].

Definition is_statement (l : Line) : bool :=
  match l with LComment _ => false | _ => true end.

(** The names the module exports. *)
Definition exports (m : list Line) : list string :=
  m ≫= λ l, match l with LExport names => names | _ => [] end.

(** The module specifier a name is imported from. *)
Fixpoint origin (m : list Line) (name : string) : option string :=
  match m with
  | [] => None
  | LImport names specifier :: m' =>
      if bool_decide (name ∈ names) then Some specifier else origin m' name
  | _ :: m' => origin m' name
  end.

(** A specifier that starts with a dot names a file of the SDK itself; any
    other names a package. *)
Definition is_relative (specifier : string) : bool :=
  match specifier with
  | String "."%char _ => true
  | _ => false
  end.
End Index.

(** ** A small SDK to run the worker on *)

Module Toy.
(** A program is its identifier, a key is its name, an execution response is
    its outputs and whether it carries a proof, and an account is its
    private key. *)
#[export] Instance types : SdkTypes := {|
  Program := string;
  PrivateKey := nat;
  ProvingKey := string;
  VerifyingKey := string;
  KeyPair := string * string;
  ExecutionResponse := string * bool;
  Outputs := string;
  Account := string;
|}.

Definition parse_response (s : string) : Completion (string * bool) :=
  match s with
  | String "1"%char o => Return (o, true)
  | String "0"%char o => Return (o, false)
  | _ => Throw (Error "parse")
  end.

#[export] Instance sdk : Sdk := {|
  sdk_initThreadPool := Return ();
  sdk_newKeyProvider := {| cacheOption := false; cache := ∅ |};
  sdk_fetchKeys := λ proverUrl verifierUrl kp,
    (Return (proverUrl, verifierUrl),
     if cacheOption kp
     then <[proverUrl := (proverUrl, verifierUrl)]> (cache kp)
     else cache kp);
  sdk_Program_fromString := λ s,
    if bool_decide (s = "") then Throw (Error "parse") else Return s;
  sdk_Program_id := λ p, p;
  sdk_newPrivateKey := λ seed, seed;
  sdk_newAccount := λ privateKey seed,
    match privateKey with
    | Some k => Return k
    | None => Return "APrivateKey1"
    end;
  sdk_synthesizeKeys := λ _ _ program function _ _,
    Return ("prover/" +:+ function, "verifier/" +:+ function);
  sdk_executeOffline := λ _ _ args,
    Return (String.concat "," (eo_inputs args), eo_proveExecution args);
  sdk_getKeys := λ _ programId function,
    Return ("prover/" +:+ function, "verifier/" +:+ function);
  sdk_provingKey := λ k, Return k.1;
  sdk_verifyingKey := λ k, Return k.2;
  sdk_getOutputs := λ r, r.1;
  sdk_toString := λ r, String (if r.2 then "1" else "0")%char r.1;
  sdk_ExecutionResponse_fromString := parse_response;
  sdk_verifyExecution := λ _ _ r, Return r.2;
  sdk_deploy := λ _ _ program _,
    (Return ("at1" +:+ program),
     {[ "credits.aleo/fee_public" := ("prover/fee", "verifier/fee") ]});
  sample_inputs := ["1field"];
  Object_prototype := λ name,
    if bool_decide (name = "toString")
    then Some (λ _, Return (VString "[object Object]"))
    else None;
|}.

(** The world before the module is evaluated. *)
Definition w0 : World :=
  {| heap := ∅; rng := 0; console := []; pending := [] |}.

(** The bindings the module evaluates to from [w0], and the world it
    leaves. *)
Definition env : Env :=
  {| keyProvider := 0; programManager := 1; account := 2 |}.

Definition started : World := final (worker w0).

(** The world after a first local execution of [main], which caches its
    keys. *)
Definition warm : World :=
  final (localProgramExecution env "tree_mnist_2.aleo" "main" ["1field"] started).
End Toy.

(** ** Vocabulary of the properties *)

Section Vocabulary.
Context `{Sdk}.

(** The worker is wired for caching: its program manager holds the
    module-level key provider, and that provider has caching switched on. *)
Definition wired (env : Env) (h : gmap loc Obj) : Prop :=
  ∃ pm kp,
    h !! programManager env = Some (OProgramManager pm)
    ∧ pm_keyProvider pm = keyProvider env
    ∧ h !! keyProvider env = Some (OKeyProvider kp)
    ∧ cacheOption kp = true.

(** How an object may change while the worker serves its methods: a key
    provider that caches goes on caching, a program manager keeps its key
    provider, and nothing else changes. *)
Definition obj_evolves (o o' : Obj) : Prop :=
  match o, o' with
  | OKeyProvider kp, OKeyProvider kp' => cacheOption kp = true → cacheOption kp' = true
  | OProgramManager pm, OProgramManager pm' => pm_keyProvider pm' = pm_keyProvider pm
  | _, _ => o = o'
  end.

Definition evolves (h h' : gmap loc Obj) : Prop :=
  ∀ l o, h !! l = Some o → ∃ o', h' !! l = Some o' ∧ obj_evolves o o'.

(** A call that does not switch caching off. *)
Definition keeps_caching (c : Call) : Prop :=
  match c with
  | CUseCache _ b => b = true
  | _ => True
  end.

(** A piece of the worker is [quiet] when, from any world, it lets the heap
    evolve and never switches caching off. *)
Definition quiet {A} (m : M A) : Prop :=
  ∀ w, evolves (heap w) (heap (final (m w))) ∧ Forall keeps_caching (trace (m w)).

(** The cache key a call names: the key looked up or stored, the key of the
    search parameters built, the key of the search parameters passed. *)
Definition call_keyId (c : Call) : option string :=
  match c with
  | CContainsKeys _ k => Some k
  | CCacheKeys _ k _ => Some k
  | CNewKeyProviderParams p => Some (cacheKey p)
  | CExecuteOffline _ args => Some (cacheKey (eo_keySearchParams args))
  | _ => None
  end.

(** The key provider whose cache a call reads or writes. *)
Definition call_cache (c : Call) : option loc :=
  match c with
  | CContainsKeys l _ => Some l
  | CCacheKeys l _ _ => Some l
  | _ => None
  end.

(** A call is keyed by a program and a function when the cache key it
    names, if any, is the identifier of the parsed program, a slash, and
    the function name. *)
Definition keyed_by (program_source aleoFunction : string) (c : Call) : Prop :=
  ∀ k, call_keyId c = Some k →
    ∃ program, sdk_Program_fromString program_source = Return program
               ∧ k = sdk_Program_id program +:+ "/" +:+ aleoFunction.

(** A call uses the cache of the worker's program manager when the key
    provider it reads or writes, if any, is that manager's. *)
Definition on_manager_cache (env : Env) (h : gmap loc Obj) (c : Call) : Prop :=
  ∀ l, call_cache c = Some l →
    ∃ pm, h !! programManager env = Some (OProgramManager pm)
          ∧ l = pm_keyProvider pm.


Definition is_cacheKeys (c : Call) : bool :=
  match c with CCacheKeys _ _ _ => true | _ => false end.

Definition is_containsKeys (c : Call) : bool :=
  match c with CContainsKeys _ _ => true | _ => false end.

Definition is_executeOffline (c : Call) : bool :=
  match c with CExecuteOffline _ _ => true | _ => false end.

Definition is_expose (c : Call) : bool :=
  match c with CExpose _ => true | _ => false end.

(** A call that neither asks [executeOffline] for function keys nor stores
    keys. *)
Definition no_synthesis (c : Call) : Prop :=
  match c with
  | CExecuteOffline _ args => eo_cacheFunctionKeys args = false
  | CCacheKeys _ _ _ => False
  | _ => True
  end.

(** A call that, if it is an [executeOffline], asks for a proof. *)
Definition requests_proof (c : Call) : Prop :=
  match c with
  | CExecuteOffline _ args => eo_proveExecution args = true
  | _ => True
  end.

(** What [deployProgram] does before it deploys: the one account it
    constructs is built from the placeholder key, and nothing is deployed
    yet. *)
Definition deploy_setup (c : Call) : Prop :=
  match c with
  | CNewAccount privateKey => privateKey = Some "user1PrivateKey"
  | CDeploy _ _ _ => False
  | _ => True
  end.

(** The cache that [synthesizeKeys] and [localProgramExecution] use: the
    cache of the key provider of the module-level program manager. *)
Definition manager_cache (env : Env) (h : gmap loc Obj)
    : option (gmap string FunctionKeyPair) :=
  match h !! programManager env with
  | Some (OProgramManager pm) =>
      match h !! pm_keyProvider pm with
      | Some (OKeyProvider kp) => Some (cache kp)
      | _ => None
      end
  | _ => None
  end.

(** The stages of the offline execution pipeline that the worker invokes. *)
Inductive Stage : Type := Parsing | Executing | Extracting.

Definition stage_of (c : Call) : option Stage :=
  match c with
  | CProgramFromString _ => Some Parsing
  | CExecuteOffline _ _ => Some Executing
  | CGetOutputs _ => Some Extracting
  | _ => None
  end.

Definition stages (t : list Call) : list Stage := omap stage_of t.

(** The objects a call is made on, creates, or is handed. *)
Definition call_refs (c : Call) : list loc :=
  match c with
  | CNewKeyProvider l | CUseCache l _ | CFetchKeys l _ _ | CContainsKeys l _
  | CCacheKeys l _ _ | CNewNetworkClient l _ | CSynthesizeKeys l _ _ _ _
  | CExecuteOffline l _ | CVerifyExecution l _ | CDeploy l _ _ => [l]
  | CNewProgramManager l _ kp rp => l :: kp :: from_option (λ r, [r]) [] rp
  | CSetAccount l a => [l; a]
  | CNewRecordProvider l a c => [l; a; c]
  | _ => []
  end.

(** A call that involves only objects that did not exist in the heap [h]. *)
Definition on_new_objects (h : gmap loc Obj) (c : Call) : Prop :=
  ∀ l, l ∈ call_refs c → l ∉ dom h.

(** The module's calls, in order, when it evaluates to the bindings [env]. *)
Definition module_calls (env : Env) : list Call :=
  [ CInitThreadPool;
    CNewKeyProvider (keyProvider env);
    CUseCache (keyProvider env) true;
    CFetchKeys (keyProvider env) prover_url verifier_url;
    CUseCache (keyProvider env) true;
    CNewProgramManager (programManager env) api_host (keyProvider env) None;
    CNewAccount None;
    CSetAccount (programManager env) (account env);
    CExpose (workerMethods.*1) ].

(** The worker holds keys for a function of a program: the source parses,
    and the key provider of the module-level program manager has an entry
    under [program.id()/aleoFunction]. *)
Definition cached (env : Env) (h : gmap loc Obj)
    (program_source aleoFunction : string) : Prop :=
  ∃ program pm kp,
    sdk_Program_fromString program_source = Return program
    ∧ h !! programManager env = Some (OProgramManager pm)
    ∧ h !! pm_keyProvider pm = Some (OKeyProvider kp)
    ∧ is_Some (cache kp !! (sdk_Program_id program +:+ "/" +:+ aleoFunction)).

(** The world after a sequence of remote calls, each run to completion,
    whether it returns or throws. *)
Definition serve (env : Env) (requests : list (string * list Value))
    (w : World) : World :=
  foldl (λ w r, final (remote_call env r.1 r.2 w)) w requests.

(** How an object may change under a remote call: a key provider stays
    one, keeps its caching switch and keeps an entry under every key it had
    one for; any other object stays as it is. *)
Definition obj_grows (o o' : Obj) : Prop :=
  match o with
  | OKeyProvider kp =>
      ∃ kp', o' = OKeyProvider kp'
             ∧ cacheOption kp' = cacheOption kp
             ∧ ∀ k, is_Some (cache kp !! k) → is_Some (cache kp' !! k)
  | _ => o' = o
  end.

(** A world [w'] extends [w]: the same fetches are pending, and every object
    of [w] has grown into one of [w']. *)
Definition extends (w w' : World) : Prop :=
  pending w' = pending w
  ∧ ∀ l o, heap w !! l = Some o → ∃ o', heap w' !! l = Some o' ∧ obj_grows o o'.

(** A piece of the worker is [steady] when it leaves an extension of the
    world it starts in, whether it returns or throws. *)
Definition steady {A} (m : M A) : Prop := ∀ w, extends w (final (m w)).

(** The one fetch the module starts. *)
Definition module_fetch (env : Env) : loc * string * string :=
  (keyProvider env, prover_url, verifier_url).

(** The program manager the module builds. *)
Definition module_manager (env : Env) : ProgramManager :=
  {| pm_host := api_host;
     pm_keyProvider := keyProvider env;
     pm_recordProvider := None;
     pm_account := Some (account env) |}.
End Vocabulary.
(** ** Properties *)

Section Properties.
Context `{Sdk}.

(** Runs a piece of the worker up to the next SDK completion or heap read. *)
Ltac run :=
  cbv beta iota zeta delta
    [mbind mret M_bind M_ret call complete get_heap store alloc draw console_write
     console_log console_error read_keyProvider read_programManager enqueue dequeue
     initThreadPool new_AleoKeyProvider useCache containsKeys cacheKeys fetchKeys
     new_AleoKeyProviderParams new_ProgramManager setAccount new_Account
     new_PrivateKey new_AleoNetworkClient new_NetworkRecordProvider
     Program_fromString Program_id ProgramManager_synthesizeKeys
     ProgramManager_executeOffline ProgramManager_verifyExecution
     ProgramManager_deploy getKeys verifyingKey provingKey getOutputs toString
     ExecutionResponse_fromString proxy expose throw_TypeError
     result final trace heap rng console pending with_heap
     keyProvider programManager account cacheKey];
  cbn [app negb fst snd cacheOption cache
       pm_host pm_keyProvider pm_recordProvider pm_account].

(** Splits on the next thing the run waits for, unless its outcome is
    known already. *)
Ltac known x := match goal with E : x = _ |- _ => rewrite E end.

Ltac fork :=
  match goal with
  | |- context [match ?x with Return _ => _ | Throw _ => _ end] =>
      lazymatch x with
      | context [match _ with _ => _ end] => fail
      | _ => first [ known x | destruct x eqn:? ]
      end
  | |- context [match ?x with Some _ => _ | None => _ end] =>
      lazymatch x with
      | context [match _ with _ => _ end] => fail
      | _ => first [ known x | destruct x as [[]|] eqn:? ]
      end
  | |- context [if ?x then _ else _] =>
      lazymatch x with
      | context [match _ with _ => _ end] => fail
      | _ => first [ known x | destruct x eqn:? ]
      end
  end.

(** Finds a call in an explicit trace. *)
Ltac elem :=
  repeat first [ apply list_elem_of_here | apply list_elem_of_further ].

(** *** Fresh references *)

Lemma fresh_dom_ne (h : gmap loc Obj) (l : loc) :
  l ∈ dom h → fresh (dom h) ≠ l.
Proof. intros Hl E. apply (is_fresh (dom h)). by rewrite E. Qed.

Lemma fresh_not_in (h h' : gmap loc Obj) :
  dom h ⊆ dom h' → fresh (dom h') ∉ dom h.
Proof. intros Hsub Hin. apply (is_fresh (dom h')). by apply Hsub. Qed.

Lemma dom_insert_here (h : gmap loc Obj) l o : l ∈ dom (<[l := o]> h).
Proof. rewrite dom_insert_L. set_solver. Qed.

Lemma dom_insert_further (h : gmap loc Obj) l k o :
  l ∈ dom h → l ∈ dom (<[k := o]> h).
Proof. rewrite dom_insert_L. set_solver. Qed.

Lemma dom_insert_sub (h h' : gmap loc Obj) k o :
  dom h ⊆ dom h' → dom h ⊆ dom (<[k := o]> h').
Proof. rewrite dom_insert_L. set_solver. Qed.

(** A reference is live in a heap built by stores on top of one where it
    is live. *)
Ltac in_dom :=
  lazymatch goal with
  | |- ?l ∈ dom (<[?k := _]> _) =>
      first [ constr_eq l k; apply dom_insert_here
            | apply dom_insert_further; in_dom ]
  | |- _ => first [ assumption | eapply elem_of_dom_2; eassumption ]
  end.

Ltac dom_sub := repeat apply dom_insert_sub; reflexivity.

Ltac fresh_ne :=
  first [ apply fresh_dom_ne | apply not_eq_sym, fresh_dom_ne ]; in_dom.

Lemma lookup_alloc (h : gmap loc Obj) (o : Obj) (l : loc) :
  l ∈ dom h → <[fresh (dom h) := o]> h !! l = h !! l.
Proof. intros Hl. apply lookup_insert_ne. by apply fresh_dom_ne. Qed.

(** *** Heap evolution *)

Lemma obj_evolves_refl o : obj_evolves o o.
Proof. destruct o; simpl; auto. Qed.

Lemma obj_evolves_trans o1 o2 o3 :
  obj_evolves o1 o2 → obj_evolves o2 o3 → obj_evolves o1 o3.
Proof.
  destruct o1, o2; simpl; try done; destruct o3; simpl; try done;
    intros; simplify_eq; auto; congruence.
Qed.

Lemma evolves_refl h : evolves h h.
Proof. intros l o Hl. eauto using obj_evolves_refl. Qed.

Lemma evolves_trans h1 h2 h3 : evolves h1 h2 → evolves h2 h3 → evolves h1 h3.
Proof.
  intros H12 H23 l o Hl.
  destruct (H12 l o Hl) as (o2 & Hl2 & Ho2).
  destruct (H23 l o2 Hl2) as (o3 & Hl3 & Ho3).
  eauto using obj_evolves_trans.
Qed.

Lemma evolves_alloc h o : evolves h (<[fresh (dom h) := o]> h).
Proof.
  intros l o' Hl. exists o'. split; [|apply obj_evolves_refl].
  rewrite lookup_alloc; [done|]. by eapply elem_of_dom_2.
Qed.

Lemma evolves_update h l o o' :
  h !! l = Some o → obj_evolves o o' → evolves h (<[l := o']> h).
Proof.
  intros Hl Ho l1 o1 Hl1. destruct (decide (l = l1)) as [<-|Hne].
  - rewrite lookup_insert_eq. simplify_eq. eauto.
  - rewrite lookup_insert_ne by done. eauto using obj_evolves_refl.
Qed.

Lemma evolves_wired env h h' : evolves h h' → wired env h → wired env h'.
Proof.
  intros Hev (pm & kp & Hpm & Hkp & Hl & Hc).
  destruct (Hev _ _ Hpm) as ([] & Hpm' & Epm); simpl in Epm; try done.
  destruct (Hev _ _ Hl) as ([] & Hl' & Ekp); simpl in Ekp; try done.
  eexists _, _. repeat split; eauto. congruence.
Qed.

(** *** Quiet pieces of the worker *)

Lemma quiet_ret {A} (a : A) : quiet (mret a : M A).
Proof. intros w. split; [apply evolves_refl | constructor]. Qed.

Lemma quiet_bind {A B} (m : M A) (f : A → M B) :
  quiet m → (∀ a, quiet (f a)) → quiet (m ≫= f).
Proof.
  intros Hm Hf w. unfold mbind, M_bind.
  destruct (Hm w) as [Em Tm]. destruct (m w) as [[a|e] w' t]; simpl in *; [|done].
  destruct (Hf a w') as [Ef Tf]. destruct (f a w') as [r w'' t']; simpl in *.
  split; [by eapply evolves_trans | by apply Forall_app].
Qed.

Lemma quiet_silent {A} (m : M A) :
  (∀ w, heap (final (m w)) = heap w ∧ trace (m w) = []) → quiet m.
Proof.
  intros Hm w. destruct (Hm w) as [-> ->]. split; [apply evolves_refl | constructor].
Qed.

Lemma quiet_call c : keeps_caching c → quiet (call c).
Proof. intros Hc w. split; [apply evolves_refl | by repeat constructor]. Qed.

Lemma quiet_complete {A} (c : Completion A) : quiet (complete c).
Proof. by apply quiet_silent. Qed.

Lemma quiet_get_heap : quiet get_heap.
Proof. by apply quiet_silent. Qed.

Lemma quiet_draw : quiet draw.
Proof. by apply quiet_silent. Qed.

Lemma quiet_console_write lv args : quiet (console_write lv args).
Proof. by apply quiet_silent. Qed.

Lemma quiet_enqueue p : quiet (enqueue p).
Proof. by apply quiet_silent. Qed.

Lemma quiet_dequeue i : quiet (dequeue i).
Proof. by apply quiet_silent. Qed.

Lemma quiet_read_keyProvider l : quiet (read_keyProvider l).
Proof. by apply quiet_silent. Qed.

Lemma quiet_read_programManager l : quiet (read_programManager l).
Proof. by apply quiet_silent. Qed.

Lemma quiet_alloc o : quiet (alloc o).
Proof. intros w. split; [apply evolves_alloc | constructor]. Qed.

(** A store is quiet when it writes an evolved copy of what it read. *)
Lemma quiet_update_keyProvider l (f : KeyProvider → KeyProvider) :
  (∀ kp, cacheOption kp = true → cacheOption (f kp) = true) →
  quiet (kp ← read_keyProvider l; store l (OKeyProvider (f kp))).
Proof.
  intros Hf [h n c p]. run.
  destruct (h !! l) as [[kp| | | |]|] eqn:Hl; run;
    try (split; [apply evolves_refl | constructor]).
  split; [|constructor]. eapply evolves_update; [done|]. simpl. auto.
Qed.

Lemma quiet_update_programManager l (f : ProgramManager → ProgramManager) :
  (∀ pm, pm_keyProvider (f pm) = pm_keyProvider pm) →
  quiet (pm ← read_programManager l; store l (OProgramManager (f pm))).
Proof.
  intros Hf [h n c p]. run.
  destruct (h !! l) as [[|pm | | |]|] eqn:Hl; run;
    try (split; [apply evolves_refl | constructor]).
  split; [|constructor]. eapply evolves_update; [done|]. simpl. auto.
Qed.

Lemma quiet_update_keyProvider_then {A} l (f : KeyProvider → KeyProvider)
    (k : KeyProvider → M A) :
  (∀ kp, cacheOption kp = true → cacheOption (f kp) = true) →
  (∀ kp, quiet (k kp)) →
  quiet (kp ← read_keyProvider l; store l (OKeyProvider (f kp));; k kp).
Proof.
  intros Hf Hk [h n c p]. run.
  destruct (h !! l) as [[kp| | | |]|] eqn:Hl; run;
    try (split; [apply evolves_refl | constructor]).
  match goal with |- context [k kp ?w'] => destruct (Hk kp w') as [Ek Tk];
    destruct (k kp w') as [r w'' t] end.
  simpl in *. split; [|done].
  eapply evolves_trans; [|done]. eapply evolves_update; [done|]. simpl. auto.
Qed.

Lemma quiet_ProgramManager_deploy this program fee :
  quiet (ProgramManager_deploy this program fee).
Proof.
  unfold ProgramManager_deploy.
  apply quiet_bind; [by apply quiet_call|]. intros _.
  apply quiet_bind; [apply quiet_get_heap|]. intros h.
  apply quiet_bind; [apply quiet_read_programManager|]. intros pm.
  apply (quiet_update_keyProvider_then (pm_keyProvider pm)
           (λ kp, {| cacheOption := cacheOption kp;
                     cache := (sdk_deploy h this program fee).2 |})
           (λ _, complete (sdk_deploy h this program fee).1)); [done|].
  intros _. apply quiet_complete.
Qed.

Lemma quiet_useCache_true l : quiet (useCache l true).
Proof.
  apply quiet_bind; [by apply quiet_call|]. intros _.
  by apply (quiet_update_keyProvider l (λ kp, {| cacheOption := true; cache := cache kp |})).
Qed.

Lemma quiet_cacheKeys l k keys : quiet (cacheKeys l k keys).
Proof.
  apply quiet_bind; [by apply quiet_call|]. intros _.
  by apply (quiet_update_keyProvider l
              (λ kp, {| cacheOption := cacheOption kp; cache := <[k := keys]> (cache kp) |})).
Qed.

Lemma quiet_setAccount l a : quiet (setAccount l a).
Proof.
  apply quiet_bind; [by apply quiet_call|]. intros _.
  by apply (quiet_update_programManager l
              (λ pm, {| pm_host := pm_host pm; pm_keyProvider := pm_keyProvider pm;
                        pm_recordProvider := pm_recordProvider pm;
                        pm_account := Some a |})).
Qed.

(** Composes the lemmas above along the structure of a definition. *)
Ltac quiet_step :=
  first
    [ apply quiet_ret
    | apply quiet_useCache_true
    | apply quiet_cacheKeys
    | apply quiet_setAccount
    | apply quiet_ProgramManager_deploy
    | apply quiet_call; exact I
    | apply quiet_complete
    | apply quiet_get_heap
    | apply quiet_draw
    | apply quiet_console_write
    | apply quiet_enqueue
    | apply quiet_dequeue
    | apply quiet_read_keyProvider
    | apply quiet_read_programManager
    | apply quiet_alloc
    | apply quiet_bind; [|intros ?]
    | match goal with
      | |- quiet (if ?b then _ else _) => destruct b
      | |- quiet (match ?x with _ => _ end) => destruct x
      end
    | progress
        unfold initThreadPool, new_AleoKeyProvider, containsKeys, fetchKeys,
          new_AleoKeyProviderParams, new_ProgramManager, new_Account,
          new_PrivateKey, new_AleoNetworkClient, new_NetworkRecordProvider,
          Program_fromString, Program_id, ProgramManager_synthesizeKeys,
          ProgramManager_executeOffline, ProgramManager_verifyExecution,
          getKeys, verifyingKey, provingKey, getOutputs,
          toString, ExecutionResponse_fromString, proxy, expose, throw_TypeError,
          console_log, console_error ].

Ltac quiet := repeat quiet_step.

Lemma quiet_synthesizeKeys env program_source aleoFunction :
  quiet (synthesizeKeys env program_source aleoFunction).
Proof. unfold synthesizeKeys. quiet. Qed.

Lemma quiet_localProgramExecution env program_source aleoFunction inputs :
  quiet (localProgramExecution env program_source aleoFunction inputs).
Proof. unfold localProgramExecution. quiet. Qed.

Lemma quiet_getPrivateKey : quiet getPrivateKey.
Proof. unfold getPrivateKey. quiet. Qed.

Lemma quiet_verifyExecution env execution : quiet (verifyExecution env execution).
Proof. unfold verifyExecution. quiet. Qed.

Lemma quiet_deployProgram program : quiet (deployProgram program).
Proof. unfold deployProgram. quiet. Qed.

Lemma quiet_settle i : quiet (settle i).
Proof.
  unfold settle. apply quiet_bind; [apply quiet_dequeue|].
  intros [[[this proverUrl] verifierUrl]|]; [|apply quiet_ret].
  intros [h n c p]. run.
  destruct (h !! this) as [[kp| | | |]|] eqn:Hl; run;
    try (split; [apply evolves_refl | constructor]).
  destruct (sdk_fetchKeys proverUrl verifierUrl kp) as [[] ?]; run;
    (split; [|constructor]); (eapply evolves_update; [done|]); simpl; auto.
Qed.

(** *** The exposed object *)


Lemma workerMethods_lookup name method :
  (list_to_map workerMethods : gmap string _) !! name = Some method →
  (name, method) ∈ workerMethods.
Proof. apply elem_of_list_to_map_2. Qed.


Lemma quiet_remote_call env name args : quiet (remote_call env name args).
Proof.
  unfold remote_call.
  destruct (_ !! name) as [method|] eqn:Hm; [|quiet].
  apply workerMethods_lookup in Hm. unfold workerMethods in Hm.
  repeat (apply elem_of_cons in Hm as [[= -> ->]|Hm]);
    [..|by apply elem_of_nil in Hm];
    repeat first
      [ apply quiet_deployProgram | apply quiet_getPrivateKey
      | apply quiet_localProgramExecution | apply quiet_synthesizeKeys
      | apply quiet_verifyExecution | quiet_step ].
Qed.

Lemma quiet_handle env ev : quiet (handle env ev).
Proof.
  destruct ev as [name args|i]; simpl; [|apply quiet_settle].
  intros w. apply (quiet_remote_call env name args w).
Qed.

(** *** The evaluation of the module *)

(** The module throws before it exposes anything, or evaluates to its
    bindings after the calls of [module_calls], wired for caching. *)
Lemma worker_run (w : World) :
  (∃ e, result (worker w) = Throw e
        ∧ Forall (λ c, is_expose c = false) (trace (worker w)))
  ∨ (∃ env, result (worker w) = Return env
            ∧ trace (worker w) = module_calls env
            ∧ wired env (heap (final (worker w)))).
Proof.
  destruct w as [h n c p]. unfold worker. run.
  destruct sdk_initThreadPool; run; [|left; eexists; by repeat constructor].
  rewrite lookup_insert_eq; run. rewrite lookup_insert_eq; run.
  destruct (sdk_newAccount None n); run; [|left; eexists; by repeat constructor].
  rewrite lookup_insert_ne by fresh_ne. rewrite lookup_insert_eq; run.
  right. eexists. split; [done|]. split; [done|].
  unfold wired; run. eexists _, _.
  rewrite lookup_insert_eq. split; [done|]. split; [done|].
  rewrite !lookup_insert_ne by fresh_ne. by rewrite lookup_insert_eq.
Qed.

Lemma worker_returns (w : World) (env : Env) :
  result (worker w) = Return env →
  trace (worker w) = module_calls env ∧ wired env (heap (final (worker w))).
Proof.
  intros Hr. destruct (worker_run w) as [(e & He & _)|(env' & He & Ht & Hw)];
    rewrite He in Hr; [done|]. by injection Hr as <-.
Qed.

(** *** Reachable worlds *)

Lemma reachable_wired w0 env w calls :
  reachable w0 env w calls → wired env (heap w).
Proof.
  induction 1 as [env Hr|env w calls ev _ IH].
  - by apply worker_returns.
  - eapply evolves_wired; [|done]. apply quiet_handle.
Qed.

Lemma reachable_calls w0 env w calls :
  reachable w0 env w calls →
  ∃ later, calls = (module_calls env ++ later)%list ∧ Forall keeps_caching later.
Proof.
  induction 1 as [env Hr|env w calls ev _ (later & -> & IH)].
  - exists []. rewrite app_nil_r. split; [by apply worker_returns | constructor].
  - exists (later ++ trace (handle env ev w))%list. rewrite app_assoc. split; [done|].
    apply Forall_app. split; [done|]. apply quiet_handle.
Qed.



(** *** Cache keys *)

Ltac keyed :=
  repeat constructor;
  first [ intros k [= <-]; eauto | intros l [= <-]; eauto | done ].

(** C2: in every call of [synthesizeKeys] and every call of
    [localProgramExecution], each cache key the call names (the key stored
    with [cacheKeys], the key looked up with [containsKeys], and the key of
    the search parameters built and passed to [executeOffline]) is the
    string [program.id()], ["/"], [aleoFunction] of the parsed program, and
    the key provider read or written is the program manager's.  When
    [synthesizeKeys] returns it has stored the synthesized keys under this
    key, once; when [localProgramExecution] returns, that provider holds
    keys under this key. *)
Theorem cache_key_is_program_id_and_function
    env program_source aleoFunction inputs w :
  let o1 := synthesizeKeys env program_source aleoFunction w in
  let o2 := localProgramExecution env program_source aleoFunction inputs w in
  Forall (keyed_by program_source aleoFunction) (trace o1)
  ∧ Forall (on_manager_cache env (heap w)) (trace o1)
  ∧ Forall (keyed_by program_source aleoFunction) (trace o2)
  ∧ Forall (on_manager_cache env (heap w)) (trace o2)
  ∧ (∀ u, result o1 = Return u →
       ∃ program pm kp keys,
         sdk_Program_fromString program_source = Return program
         ∧ heap w !! programManager env = Some (OProgramManager pm)
         ∧ heap w !! pm_keyProvider pm = Some (OKeyProvider kp)
         ∧ filter (λ c, is_cacheKeys c = true) (trace o1) =
             [CCacheKeys (pm_keyProvider pm)
                (sdk_Program_id program +:+ "/" +:+ aleoFunction) keys]
         ∧ heap (final o1) =
             <[pm_keyProvider pm :=
                 OKeyProvider
                   {| cacheOption := cacheOption kp;
                      cache := <[sdk_Program_id program +:+ "/" +:+ aleoFunction
                                 := keys]> (cache kp) |}]> (heap w))
  ∧ (∀ v, result o2 = Return v →
       ∃ program pm kp',
         sdk_Program_fromString program_source = Return program
         ∧ heap w !! programManager env = Some (OProgramManager pm)
         ∧ heap (final o2) !! pm_keyProvider pm = Some (OKeyProvider kp')
         ∧ is_Some (cache kp' !! (sdk_Program_id program +:+ "/" +:+ aleoFunction))).
Proof.
  destruct w as [h n c p], env as [kp0 pm0 acct0]. cbv zeta.
  split; [|split; [|split; [|split; [|split]]]].
  - unfold synthesizeKeys. run. repeat (fork; run); keyed.
  - unfold synthesizeKeys. run. repeat (fork; run); keyed.
  - unfold localProgramExecution. run. repeat (fork; run); keyed.
  - unfold localProgramExecution. run. repeat (fork; run); keyed.
  - unfold synthesizeKeys. run. repeat (fork; run); intros u Hu; try done.
    eexists _, _, _, _. by repeat split.
  - unfold localProgramExecution. run. repeat (fork; run); intros v Hv; try done.
    + eexists _, pm, _. split; [done|]. split; [done|].
      split; [apply lookup_insert_eq|]. simpl. rewrite lookup_insert_eq. eauto.
    + eexists _, pm, kp. split; [done|]. split; [done|]. split; [done|].
      apply negb_false_iff in Heqb. by eapply bool_decide_eq_true.
Qed.

(** *** Local execution *)

(** C3: when the program manager's key provider already holds keys under
    [program.id()/aleoFunction], a call of [localProgramExecution] calls
    [executeOffline] once, with the search parameters of that key and with
    [cacheFunctionKeys] false, makes no [cacheKeys] call, and leaves the
    heap, and so the key provider's cache, as it found it. *)
Theorem no_synthesis_when_keys_cached
    env program_source aleoFunction inputs w program pm kp :
  sdk_Program_fromString program_source = Return program →
  heap w !! programManager env = Some (OProgramManager pm) →
  heap w !! pm_keyProvider pm = Some (OKeyProvider kp) →
  is_Some (cache kp !! (sdk_Program_id program +:+ "/" +:+ aleoFunction)) →
  let o := localProgramExecution env program_source aleoFunction inputs w in
  Forall no_synthesis (trace o)
  ∧ (∃ args,
       filter (λ c, is_executeOffline c = true) (trace o) =
         [CExecuteOffline (programManager env) args]
       ∧ eo_cacheFunctionKeys args = false
       ∧ cacheKey (eo_keySearchParams args) =
           sdk_Program_id program +:+ "/" +:+ aleoFunction)
  ∧ filter (λ c, is_cacheKeys c = true) (trace o) = []
  ∧ heap (final o) = heap w
  ∧ heap (final o) !! pm_keyProvider pm = Some (OKeyProvider kp).
Proof.
  destruct w as [h n c p], env as [kp0 pm0 acct0]. simpl.
  intros Hparse Hpm Hkp Hcached.
  assert (Hb : bool_decide
                 (is_Some (cache kp !! (sdk_Program_id program +:+ "/" +:+ aleoFunction)))
               = true) by by apply bool_decide_eq_true_2.
  unfold localProgramExecution. run.
  repeat (first [rewrite Hb | fork]; run);
    (split; [by repeat constructor|]); (split; [by eexists|]); done.
Qed.

(** C4: every call of [localProgramExecution] runs the stages of the
    pipeline in the order parsing ([Program.fromString] on the source,
    the first call of all), execution ([executeOffline]), output extraction
    ([getOutputs]); a call that throws has run an initial part of this
    sequence.  A call that returns has run all three, [executeOffline] once
    on the source, the function and the inputs it was given, and returns
    the pair of [getOutputs()] and [toString()] of the response of that
    execution.  It does return when the SDK calls it makes complete. *)
Theorem pipeline_order env program_source aleoFunction inputs w :
  let o := localProgramExecution env program_source aleoFunction inputs w in
  stages (trace o) `prefix_of` [Parsing; Executing; Extracting]
  ∧ head (trace o) = Some (CProgramFromString program_source)
  ∧ (∀ v, result o = Return v →
       stages (trace o) = [Parsing; Executing; Extracting]
       ∧ ∃ args response,
           filter (λ c, is_executeOffline c = true) (trace o) =
             [CExecuteOffline (programManager env) args]
           ∧ eo_program args = program_source
           ∧ eo_function args = aleoFunction
           ∧ eo_inputs args = inputs
           ∧ sdk_executeOffline (heap w) (programManager env) args = Return response
           ∧ CGetOutputs response ∈ trace o
           ∧ v = (sdk_getOutputs response, sdk_toString response))
  ∧ (∀ program pm kp response,
       sdk_Program_fromString program_source = Return program →
       heap w !! programManager env = Some (OProgramManager pm) →
       heap w !! pm_keyProvider pm = Some (OKeyProvider kp) →
       sdk_executeOffline (heap w) (programManager env)
         {| eo_program := program_source;
            eo_function := aleoFunction;
            eo_inputs := inputs;
            eo_proveExecution := true;
            eo_imports := None;
            eo_keySearchParams :=
              {| cacheKey := sdk_Program_id program +:+ "/" +:+ aleoFunction |};
            eo_provingKey := None;
            eo_verifyingKey := None;
            eo_privateKey := None;
            eo_cacheFunctionKeys :=
              negb (bool_decide
                      (is_Some (cache kp !! (sdk_Program_id program +:+ "/"
                                             +:+ aleoFunction)))) |}
       = Return response →
       (cache kp !! (sdk_Program_id program +:+ "/" +:+ aleoFunction) = None →
        ∃ keys vk pk,
          sdk_getKeys response (sdk_Program_id program) aleoFunction = Return keys
          ∧ sdk_verifyingKey keys = Return vk
          ∧ sdk_provingKey keys = Return pk) →
       result o = Return (sdk_getOutputs response, sdk_toString response)).
Proof.
  destruct w as [h n c p], env as [kp0 pm0 acct0]. cbv zeta.
  split; [|split; [|split]].
  - unfold localProgramExecution. run. repeat (fork; run); by eexists.
  - unfold localProgramExecution. run. repeat (fork; run); done.
  - unfold localProgramExecution. run.
    repeat (fork; run); intros v [= <-]; (split; [done|]);
      eexists _, _; repeat split; try done; elem.
  - simpl. intros program pm kp response Hparse Hpm Hkp Hexec Hkeys.
    unfold localProgramExecution. run. rewrite Hparse; run.
    rewrite Hpm; run. rewrite Hkp; run.
    destruct (cache kp !! _) as [keys|] eqn:Hc.
    + rewrite bool_decide_eq_true_2 in * by eauto. run.
      cbn [negb] in Hexec. rewrite Hexec. by run.
    + rewrite bool_decide_eq_false_2 in * by (by intros [? ?]). run.
      cbn [negb] in Hexec. rewrite Hexec. run.
      destruct Hkeys as (keys & vk & pk & -> & Hvk & Hpk); [done|]. run.
      rewrite Hvk; run. rewrite Hpm; run. rewrite Hpk; run. by rewrite Hkp; run.
Qed.

(** C9: every [executeOffline] call of [localProgramExecution] has
    [proveExecution] true, and the execution string a call returns is the
    [toString()] of the response of that proving execution.  When
    [ExecutionResponse.fromString] reads that string back as the response,
    [verifyExecution] on it parses it and then has the program manager
    check that very response. *)
Theorem execution_is_proven env program_source aleoFunction inputs w :
  let o := localProgramExecution env program_source aleoFunction inputs w in
  Forall requests_proof (trace o)
  ∧ (∀ outputs execution,
       result o = Return (outputs, execution) →
       ∃ args response,
         CExecuteOffline (programManager env) args ∈ trace o
         ∧ eo_proveExecution args = true
         ∧ sdk_executeOffline (heap w) (programManager env) args = Return response
         ∧ execution = sdk_toString response
         ∧ outputs = sdk_getOutputs response
         ∧ (sdk_ExecutionResponse_fromString execution = Return response →
            ∀ w',
              verifyExecution env execution w' =
              {| result := sdk_verifyExecution (heap w') (programManager env) response;
                 final := w';
                 trace := [CExecutionResponseFromString execution;
                           CVerifyExecution (programManager env) response] |})).
Proof.
  destruct w as [h n c p], env as [kp0 pm0 acct0]. cbv zeta. split.
  - unfold localProgramExecution. run. repeat (fork; run); by repeat constructor.
  - unfold localProgramExecution. run.
    repeat (fork; run); intros outputs execution [= <- <-];
      eexists _, _; (split; [elem|]); repeat split; try done;
      intros Hrt [h' n' c' p']; unfold verifyExecution; run; rewrite Hrt; by run.
Qed.

(** *** Deployment *)

Ltac look :=
  first [ rewrite lookup_insert_eq | rewrite lookup_insert_ne by fresh_ne ].

(** What a call of [deployProgram] does, spelled out: the five objects it
    creates get fresh references, one after the other, and the deployment
    leaves its cache with the new key provider. *)
Lemma deployProgram_run program w :
  let h := heap w in
  let kp := fresh (dom h) in
  let h1 := <[kp := OKeyProvider {| cacheOption := true;
                                    cache := cache sdk_newKeyProvider |}]>
              (<[kp := OKeyProvider sdk_newKeyProvider]> h) in
  let nc := fresh (dom h1) in
  let h2 := <[nc := ONetworkClient api_host]> h1 in
  let w2 := {| heap := h2; rng := S (rng w);
               console := console w; pending := pending w |} in
  let setup := [CNewKeyProvider kp; CUseCache kp true;
                CNewNetworkClient nc api_host;
                CNewAccount (Some "user1PrivateKey")] in
  match sdk_newAccount (Some "user1PrivateKey") (rng w) with
  | Throw e =>
      deployProgram program w =
      {| result := Throw e; final := w2; trace := setup |}
  | Return acc =>
      let a := fresh (dom h2) in
      let h3 := <[a := OAccount acc]> h2 in
      let rp := fresh (dom h3) in
      let h4 := <[rp := ORecordProvider a nc]> h3 in
      let pm := fresh (dom h4) in
      let h5 :=
        <[pm := OProgramManager
                  {| pm_host := api_host; pm_keyProvider := kp;
                     pm_recordProvider := Some rp; pm_account := Some a |}]>
          (<[pm := OProgramManager
                     {| pm_host := api_host; pm_keyProvider := kp;
                        pm_recordProvider := Some rp; pm_account := None |}]> h4) in
      let r := sdk_deploy h5 pm program fee in
      deployProgram program w =
      {| result := r.1;
         final := {| heap := <[kp := OKeyProvider {| cacheOption := true;
                                                     cache := r.2 |}]> h5;
                     rng := S (rng w);
                     console := console w; pending := pending w |};
         trace := ((setup ++ [CNewRecordProvider rp a nc;
                              CNewProgramManager pm api_host kp (Some rp);
                              CSetAccount pm a])
                   ++ [CDeploy pm program fee])%list |}
  end.
Proof.
  destruct w as [h n c p]. cbv zeta. simpl.
  unfold deployProgram. run. look; run.
  destruct (sdk_newAccount _ n) as [acc|e]; run; [|done].
  repeat (look; run).
  destruct (sdk_deploy _ _ program fee) as [[tx_id|e] cache']; run; by f_equal.
Qed.

(** C7: [deployProgram] constructs one account, from the private key string
    ["user1PrivateKey"], and, when that succeeds, deploys the program it is
    given with the fee 1.9 through a program manager that holds this
    account.  The calls before the deployment, the manager, the account
    and the fee are the same for every program. *)
Theorem deploy_fee_and_account w :
  fee = (19 # 10)%Q
  ∧ ((∃ e,
        sdk_newAccount (Some "user1PrivateKey") (rng w) = Throw e
        ∧ ∀ program,
            result (deployProgram program w) = Throw e
            ∧ Forall deploy_setup (trace (deployProgram program w)))
     ∨ (∃ acc before pm a,
          sdk_newAccount (Some "user1PrivateKey") (rng w) = Return acc
          ∧ Forall deploy_setup before
          ∧ CNewAccount (Some "user1PrivateKey") ∈ before
          ∧ ∀ program,
              let o := deployProgram program w in
              trace o = (before ++ [CDeploy pm program fee])%list
              ∧ ∃ h' m,
                  result o = (sdk_deploy h' pm program fee).1
                  ∧ h' !! pm = Some (OProgramManager m)
                  ∧ pm_account m = Some a
                  ∧ h' !! a = Some (OAccount acc))).
Proof.
  split; [reflexivity|].
  pose proof (λ program, deployProgram_run program w) as Hrun. cbv zeta in Hrun.
  destruct (sdk_newAccount (Some "user1PrivateKey") (rng w)) as [acc|e].
  - right. eexists acc, _, _, _. split; [done|].
    split; [|split]; cycle 2.
    + intros program. cbv zeta. rewrite (Hrun program).
      split; [reflexivity|]. eexists _, _. split; [reflexivity|].
      split; [by look|]. split; [done|]. by repeat look.
    + by repeat constructor.
    + elem.
  - left. exists e. split; [done|]. intros program. rewrite (Hrun program).
    by repeat constructor.
Qed.

Ltac new_refs :=
  let l := fresh "l" in
  let Hl := fresh "Hl" in
  intros l Hl; simpl in Hl;
  repeat (apply elem_of_cons in Hl as [->|Hl]);
  try (by apply elem_of_nil in Hl);
  apply fresh_not_in; dom_sub.

(** C8: a call of [deployProgram] works on objects of its own: every object
    that existed before the call, and so the module-level key provider,
    program manager and account, is the same after it, and every call it
    makes is on objects that did not exist before.  In particular the
    cache that [synthesizeKeys] and [localProgramExecution] use is
    unchanged. *)
Theorem deploy_frame program w :
  let o := deployProgram program w in
  (∀ l, l ∈ dom (heap w) → heap (final o) !! l = heap w !! l)
  ∧ Forall (on_new_objects (heap w)) (trace o)
  ∧ (∀ env, is_Some (manager_cache env (heap w)) →
            manager_cache env (heap (final o)) = manager_cache env (heap w)).
Proof.
  cbv zeta.
  assert (Hframe : ∀ l, l ∈ dom (heap w) →
                        heap (final (deployProgram program w)) !! l = heap w !! l).
  { intros l Hl. pose proof (deployProgram_run program w) as Hrun.
    cbv zeta in Hrun. destruct (sdk_newAccount _ (rng w)); rewrite Hrun; cbn [final heap];
      by rewrite !lookup_insert_ne by fresh_ne. }
  split; [done|]. split.
  - pose proof (deployProgram_run program w) as Hrun. cbv zeta in Hrun.
    destruct (sdk_newAccount _ (rng w)); rewrite Hrun; cbn [trace app];
      repeat (constructor; [new_refs|]); constructor.
  - intros env. unfold manager_cache.
    destruct (heap w !! programManager env) as [[|pm| | |]|] eqn:Hpm;
      try by intros [? [=]].
    destruct (heap w !! pm_keyProvider pm) as [[kp| | | |]|] eqn:Hkp;
      try by intros [? [=]].
    intros _. rewrite Hframe, Hpm by by eapply elem_of_dom_2.
    by rewrite Hframe, Hkp by by eapply elem_of_dom_2.
Qed.

(** *** The worker's life *)

(** C6: the module initializes the thread pool first, calls [useCache(true)]
    on the module-level key provider before it builds the program manager
    on that provider, and calls [expose] last; so whenever an exposed
    method is invoked, the module was evaluated in this order, no call
    since has switched caching off, and the key provider of the
    module-level program manager, the one [localProgramExecution] and
    [synthesizeKeys] use, is the module-level one with caching on. *)
Theorem caching_wired_before_methods w0 env w calls :
  reachable w0 env w calls →
  result (worker w0) = Return env
  ∧ (∃ later, calls = (module_calls env ++ later)%list
              ∧ Forall keeps_caching later)
  ∧ wired env (heap w).
Proof.
  intros Hr. split; [|split].
  - induction Hr; done.
  - by eapply reachable_calls.
  - by eapply reachable_wired.
Qed.

(** ** Further properties of the worker *)

(** *** The cache across calls *)

(** With keys under its cache key, a local execution asks for no synthesis,
    stores nothing, and is as good as its one [executeOffline]. *)
Lemma localProgramExecution_cached env program_source aleoFunction inputs w :
  cached env (heap w) program_source aleoFunction →
  let o := localProgramExecution env program_source aleoFunction inputs w in
  Forall no_synthesis (trace o)
  ∧ heap (final o) = heap w
  ∧ ∃ args response,
      filter (λ c, is_executeOffline c = true) (trace o) =
        [CExecuteOffline (programManager env) args]
      ∧ eo_inputs args = inputs
      ∧ sdk_executeOffline (heap w) (programManager env) args = response
      ∧ result o =
          match response with
          | Return r => Return (sdk_getOutputs r, sdk_toString r)
          | Throw e => Throw e
          end.
Proof.
  destruct w as [h n c p], env as [kp0 pm0 acct0]. simpl.
  intros (program & pm & kp & Hparse & Hpm & Hkp & Hcached).
  cbn [programManager] in Hpm.
  assert (Hb : bool_decide
                 (is_Some (cache kp !! (sdk_Program_id program +:+ "/" +:+ aleoFunction)))
               = true) by by apply bool_decide_eq_true_2.
  unfold localProgramExecution. run.
  repeat (first [rewrite Hb | fork]; run);
    (split; [by repeat constructor|]); (split; [done|]);
    eexists _, _; (split; [reflexivity|]); (split; [reflexivity|]);
    (split; [reflexivity|]);
    match goal with E : sdk_executeOffline _ _ _ = _ |- _ => by rewrite E end.
Qed.

Lemma kinds_differ (h : gmap loc Obj) l1 l2 pm kp :
  h !! l1 = Some (OProgramManager pm) → h !! l2 = Some (OKeyProvider kp) → l2 ≠ l1.
Proof. intros H1 H2 ->. congruence. Qed.

(** What a returning [synthesizeKeys] has done. *)
Lemma synthesizeKeys_returns env program_source aleoFunction w u :
  result (synthesizeKeys env program_source aleoFunction w) = Return u →
  ∃ program pm kp keys,
    sdk_Program_fromString program_source = Return program
    ∧ heap w !! programManager env = Some (OProgramManager pm)
    ∧ heap w !! pm_keyProvider pm = Some (OKeyProvider kp)
    ∧ sdk_synthesizeKeys (heap w) (programManager env) program_source aleoFunction
        sample_inputs (sdk_newPrivateKey (rng w)) = Return keys
    ∧ heap (final (synthesizeKeys env program_source aleoFunction w)) =
        <[pm_keyProvider pm :=
            OKeyProvider
              {| cacheOption := cacheOption kp;
                 cache := <[sdk_Program_id program +:+ "/" +:+ aleoFunction := keys]>
                            (cache kp) |}]> (heap w).
Proof.
  destruct w as [h n c p], env as [kp0 pm0 acct0].
  unfold synthesizeKeys. run. repeat (fork; run); intros Hu; try done.
  by eexists _, _, _, _.
Qed.

Lemma synthesizeKeys_caches env program_source aleoFunction w u :
  result (synthesizeKeys env program_source aleoFunction w) = Return u →
  cached env (heap (final (synthesizeKeys env program_source aleoFunction w)))
         program_source aleoFunction.
Proof.
  intros (program & pm & kp & keys & Hparse & Hpm & Hkp & _ & ->)%synthesizeKeys_returns.
  eexists program, pm, _. split; [done|]. split; [|split].
  - rewrite lookup_insert_ne; [done|]. by eapply kinds_differ.
  - apply lookup_insert_eq.
  - simpl. rewrite lookup_insert_eq. eauto.
Qed.

Lemma localProgramExecution_caches env program_source aleoFunction inputs w v :
  result (localProgramExecution env program_source aleoFunction inputs w) = Return v →
  cached env (heap (final (localProgramExecution env program_source aleoFunction inputs w)))
         program_source aleoFunction.
Proof.
  destruct w as [h n c p], env as [kp0 pm0 acct0].
  unfold localProgramExecution, cached. run.
  repeat (fork; run); intros Hv; try done.
  - eexists _, pm, _. split; [done|]. split; [|split].
    + rewrite lookup_insert_ne; [done|]. by eapply kinds_differ.
    + apply lookup_insert_eq.
    + simpl. rewrite lookup_insert_eq. eauto.
  - eexists _, pm, kp. split; [done|]. split; [done|]. split; [done|].
    match goal with E : negb _ = false |- _ => apply negb_false_iff in E end.
    by eapply bool_decide_eq_true.
Qed.

(** *** Steady pieces of the worker *)

Lemma obj_grows_refl o : obj_grows o o.
Proof. destruct o; simpl; eauto. Qed.

Lemma obj_grows_trans o1 o2 o3 : obj_grows o1 o2 → obj_grows o2 o3 → obj_grows o1 o3.
Proof.
  destruct o1; simpl; [|by intros -> | by intros -> | by intros -> | by intros ->].
  intros (kp2 & -> & Hc2 & H2); simpl. intros (kp3 & -> & Hc3 & H3).
  exists kp3. split; [done|]. split; [congruence|auto].
Qed.

Lemma extends_refl w : extends w w.
Proof. split; [done|]. eauto using obj_grows_refl. Qed.

Lemma extends_trans w1 w2 w3 : extends w1 w2 → extends w2 w3 → extends w1 w3.
Proof.
  intros [Hp12 H12] [Hp23 H23]. split; [congruence|]. intros l o Hl.
  destruct (H12 l o Hl) as (o2 & Hl2 & Ho2).
  destruct (H23 l o2 Hl2) as (o3 & Hl3 & Ho3).
  eauto using obj_grows_trans.
Qed.

Lemma steady_ret {A} (a : A) : steady (mret a : M A).
Proof. intros w. apply extends_refl. Qed.

Lemma steady_bind {A B} (m : M A) (f : A → M B) :
  steady m → (∀ a, steady (f a)) → steady (m ≫= f).
Proof.
  intros Hm Hf w. unfold mbind, M_bind.
  pose proof (Hm w) as Em. destruct (m w) as [[a|e] w' t]; simpl in *; [|done].
  pose proof (Hf a w') as Ef. destruct (f a w') as [r w'' t']; simpl in *.
  by eapply extends_trans.
Qed.

(** Whatever changes neither the heap nor the pending fetches is steady. *)
Lemma steady_silent {A} (m : M A) :
  (∀ w, heap (final (m w)) = heap w ∧ pending (final (m w)) = pending w) → steady m.
Proof.
  intros Hm w. destruct (Hm w) as [Hh Hp]. split; [done|]. rewrite Hh.
  eauto using obj_grows_refl.
Qed.

Lemma steady_cacheKeys l k keys : steady (cacheKeys l k keys).
Proof.
  intros [h n c p]. unfold cacheKeys. run.
  destruct (h !! l) as [[kp| | | |]|] eqn:Hl; run; try apply extends_refl.
  split; [done|]. simpl. intros l1 o1 Hl1. destruct (decide (l = l1)) as [<-|Hne].
  - rewrite lookup_insert_eq. simplify_eq. eexists. split; [done|]. simpl.
    eexists. split; [done|]. split; [done|]. intros k1 Hk1. simpl.
    rewrite lookup_insert. case_decide; eauto.
  - rewrite lookup_insert_ne by done. eauto using obj_grows_refl.
Qed.

Ltac steady_step :=
  first
    [ apply steady_ret
    | apply steady_cacheKeys
    | apply steady_bind; [|intros ?]
    | match goal with
      | |- steady (if ?b then _ else _) => destruct b
      | |- steady (match ?x with _ => _ end) => destruct x
      end
    | by apply steady_silent
    | progress
        unfold containsKeys, new_AleoKeyProviderParams, new_PrivateKey,
          Program_fromString, Program_id, ProgramManager_synthesizeKeys,
          ProgramManager_executeOffline, ProgramManager_verifyExecution,
          getKeys, verifyingKey, provingKey, getOutputs,
          toString, ExecutionResponse_fromString, proxy, throw_TypeError,
          console_log, console_error ].

Lemma steady_synthesizeKeys env program_source aleoFunction :
  steady (synthesizeKeys env program_source aleoFunction).
Proof. unfold synthesizeKeys. repeat steady_step. Qed.

Lemma steady_localProgramExecution env program_source aleoFunction inputs :
  steady (localProgramExecution env program_source aleoFunction inputs).
Proof. unfold localProgramExecution. repeat steady_step. Qed.

Lemma steady_getPrivateKey : steady getPrivateKey.
Proof. unfold getPrivateKey. repeat steady_step. Qed.

Lemma steady_verifyExecution env execution : steady (verifyExecution env execution).
Proof. unfold verifyExecution. repeat steady_step. Qed.

(** [deployProgram] is steady because all it writes is new. *)
Lemma steady_deployProgram program : steady (deployProgram program).
Proof.
  intros w. pose proof (deployProgram_run program w) as Hrun. cbv zeta in Hrun.
  destruct (sdk_newAccount _ (rng w)); rewrite Hrun; (split; [done|]);
    cbn [final heap]; intros l o Hl; exists o; (split; [|apply obj_grows_refl]);
    by rewrite !lookup_insert_ne by fresh_ne.
Qed.

Lemma steady_remote_call env name args : steady (remote_call env name args).
Proof.
  unfold remote_call.
  destruct (_ !! name) as [method|] eqn:Hm; [|repeat steady_step].
  apply workerMethods_lookup in Hm. unfold workerMethods in Hm.
  repeat (apply elem_of_cons in Hm as [[= -> ->]|Hm]);
    [..|by apply elem_of_nil in Hm];
    repeat first
      [ apply steady_deployProgram | apply steady_getPrivateKey
      | apply steady_localProgramExecution | apply steady_synthesizeKeys
      | apply steady_verifyExecution | steady_step ].
Qed.

Lemma extends_serve env requests w : extends w (serve env requests w).
Proof.
  revert w. induction requests as [|[name args] requests IH]; intros w.
  - apply extends_refl.
  - simpl. eapply extends_trans; [|apply IH]. apply steady_remote_call.
Qed.

Lemma extends_cached env w w' program_source aleoFunction :
  extends w w' →
  cached env (heap w) program_source aleoFunction →
  cached env (heap w') program_source aleoFunction.
Proof.
  intros [_ Hext] (program & pm & kp & Hparse & Hpm & Hkp & Hk).
  destruct (Hext _ _ Hpm) as (o1 & Hpm' & ->).
  destruct (Hext _ _ Hkp) as (o2 & Hkp' & kp' & -> & _ & Hgrow).
  exists program, pm, kp'. eauto.
Qed.

(** X1: once [synthesizeKeys] has returned for a function of a program, a
    later [localProgramExecution] of that function, after any remote calls
    in between, asks [executeOffline] for no keys, stores nothing and leaves
    the heap as it is. *)
Theorem synthesizeKeys_warms_cache
    env program_source aleoFunction w u requests inputs :
  result (synthesizeKeys env program_source aleoFunction w) = Return u →
  let w' := serve env requests (final (synthesizeKeys env program_source aleoFunction w)) in
  let o := localProgramExecution env program_source aleoFunction inputs w' in
  Forall no_synthesis (trace o) ∧ heap (final o) = heap w'.
Proof.
  intros Hu w' o.
  assert (Hc : cached env (heap w') program_source aleoFunction).
  { eapply extends_cached; [apply extends_serve|]. by eapply synthesizeKeys_caches. }
  destruct (localProgramExecution_cached env program_source aleoFunction inputs w' Hc)
    as (Hno & Hheap & _).
  by split.
Qed.

(** X2: a function is synthesized at most once by local executions: once
    [localProgramExecution] has returned for it, a later one, after any
    remote calls in between and with any inputs, asks for no keys and stores
    nothing, and returns when its [executeOffline] completes. *)
Theorem execution_synthesizes_at_most_once
    env program_source aleoFunction w v inputs requests inputs' :
  result (localProgramExecution env program_source aleoFunction inputs w) = Return v →
  let w' := serve env requests
              (final (localProgramExecution env program_source aleoFunction inputs w)) in
  let o := localProgramExecution env program_source aleoFunction inputs' w' in
  Forall no_synthesis (trace o)
  ∧ heap (final o) = heap w'
  ∧ ∃ args,
      eo_inputs args = inputs'
      ∧ result o =
          match sdk_executeOffline (heap w') (programManager env) args with
          | Return r => Return (sdk_getOutputs r, sdk_toString r)
          | Throw e => Throw e
          end.
Proof.
  intros Hv w' o.
  assert (Hc : cached env (heap w') program_source aleoFunction).
  { eapply extends_cached; [apply extends_serve|].
    by eapply localProgramExecution_caches. }
  destruct (localProgramExecution_cached env program_source aleoFunction inputs' w' Hc)
    as (Hno & Hheap & args & response & _ & Hin & <- & Hres).
  split; [done|]. split; [done|]. by exists args.
Qed.

(** X3: no sequence of remote calls, returning or throwing, removes an
    object, changes one that is not a key provider, changes the caching
    switch of a key provider, drops an entry of its cache, or starts or
    settles a fetch. *)
Theorem remote_calls_extend env requests w :
  pending (serve env requests w) = pending w
  ∧ ∀ l o, heap w !! l = Some o →
      ∃ o', heap (serve env requests w) !! l = Some o'
            ∧ match o with
              | OKeyProvider kp =>
                  ∃ kp', o' = OKeyProvider kp'
                         ∧ cacheOption kp' = cacheOption kp
                         ∧ ∀ k, is_Some (cache kp !! k) → is_Some (cache kp' !! k)
              | _ => o' = o
              end.
Proof.
  destruct (extends_serve env requests w) as [Hpending Hobjects].
  split; [exact Hpending|]. intros l o Hl.
  destruct (Hobjects l o Hl) as (o' & Hl' & Hgrows).
  exists o'. split; [exact Hl'|]. by destruct o.
Qed.

(** X4: a call of [synthesizeKeys] or of [localProgramExecution] that throws
    leaves the heap as it found it: keys are stored only by calls that
    return. *)
Theorem failed_call_stores_nothing env program_source aleoFunction inputs w :
  (∀ e, result (synthesizeKeys env program_source aleoFunction w) = Throw e →
        heap (final (synthesizeKeys env program_source aleoFunction w)) = heap w)
  ∧ (∀ e, result (localProgramExecution env program_source aleoFunction inputs w)
          = Throw e →
          heap (final (localProgramExecution env program_source aleoFunction inputs w))
          = heap w).
Proof.
  destruct w as [h n c p], env as [kp0 pm0 acct0]. split.
  - unfold synthesizeKeys. run. repeat (fork; run); by intros ? ?.
  - unfold localProgramExecution. run. repeat (fork; run); by intros ? ?.
Qed.

(** X5: [synthesizeKeys] never looks the cache up.  Whenever the program
    parses it synthesizes, from [sample_inputs] and a new private key,
    whatever the cache holds; and when it returns, the entry under
    [program.id()/aleoFunction] is the pair just synthesized, whatever was
    there before. *)
Theorem synthesizeKeys_always_synthesizes env program_source aleoFunction w :
  let o := synthesizeKeys env program_source aleoFunction w in
  Forall (λ c, is_containsKeys c = false) (trace o)
  ∧ (∀ program,
       sdk_Program_fromString program_source = Return program →
       CSynthesizeKeys (programManager env) program_source aleoFunction
         sample_inputs (sdk_newPrivateKey (rng w)) ∈ trace o)
  ∧ (∀ u, result o = Return u →
       ∃ program pm kp' keys,
         sdk_Program_fromString program_source = Return program
         ∧ heap w !! programManager env = Some (OProgramManager pm)
         ∧ sdk_synthesizeKeys (heap w) (programManager env) program_source
             aleoFunction sample_inputs (sdk_newPrivateKey (rng w)) = Return keys
         ∧ heap (final o) !! pm_keyProvider pm = Some (OKeyProvider kp')
         ∧ cache kp' !! (sdk_Program_id program +:+ "/" +:+ aleoFunction) = Some keys).
Proof.
  cbv zeta. split; [|split].
  - destruct w as [h n c p], env as [kp0 pm0 acct0].
    unfold synthesizeKeys. run. repeat (fork; run); by repeat constructor.
  - destruct w as [h n c p], env as [kp0 pm0 acct0]. intros program Hparse.
    unfold synthesizeKeys. run. rewrite Hparse. run. repeat (fork; run); elem.
  - intros u (program & pm & kp & keys & Hparse & Hpm & Hkp & Hsyn & ->)%synthesizeKeys_returns.
    eexists program, pm, _, keys. split; [done|]. split; [done|]. split; [done|].
    split; [apply lookup_insert_eq|]. simpl. apply lookup_insert_eq.
Qed.

Lemma manager_cache_lookup env (h : gmap loc Obj) pm kp :
  h !! programManager env = Some (OProgramManager pm) →
  h !! pm_keyProvider pm = Some (OKeyProvider kp) →
  manager_cache env h = Some (cache kp).
Proof. intros Hpm Hkp. unfold manager_cache. by rewrite Hpm, Hkp. Qed.

Lemma manager_cache_store env (h : gmap loc Obj) pm kp kp' :
  h !! programManager env = Some (OProgramManager pm) →
  h !! pm_keyProvider pm = Some (OKeyProvider kp) →
  manager_cache env (<[pm_keyProvider pm := OKeyProvider kp']> h) = Some (cache kp').
Proof.
  intros Hpm Hkp. apply manager_cache_lookup with pm.
  - rewrite lookup_insert_ne; [done|]. by eapply kinds_differ.
  - apply lookup_insert_eq.
Qed.

Lemma manager_cache_inv env (h : gmap loc Obj) c :
  manager_cache env h = Some c →
  ∃ pm kp, h !! programManager env = Some (OProgramManager pm)
           ∧ h !! pm_keyProvider pm = Some (OKeyProvider kp)
           ∧ c = cache kp.
Proof.
  unfold manager_cache. intros Hc.
  destruct (h !! programManager env) as [[|pm| | |]|] eqn:Hpm; try done.
  destruct (h !! pm_keyProvider pm) as [[kp| | | |]|] eqn:Hkp; try done.
  injection Hc as <-. by exists pm, kp.
Qed.

(** X6: neither call disturbs the rest of the cache.  After
    [synthesizeKeys] or [localProgramExecution], returning or throwing, the
    cache of the program manager's key provider holds under every key other
    than [program.id()/aleoFunction] what it held before; and
    [localProgramExecution] overwrites no entry at all: every entry of the
    cache is still in it. *)
Theorem cache_entries_kept env program_source aleoFunction inputs w c :
  manager_cache env (heap w) = Some c →
  (∃ c1,
     manager_cache env (heap (final (synthesizeKeys env program_source aleoFunction w)))
       = Some c1
     ∧ ∀ k, (∀ program, sdk_Program_fromString program_source = Return program →
                        k ≠ sdk_Program_id program +:+ "/" +:+ aleoFunction) →
            c1 !! k = c !! k)
  ∧ (∃ c2,
       manager_cache env
         (heap (final (localProgramExecution env program_source aleoFunction inputs w)))
         = Some c2
       ∧ c ⊆ c2
       ∧ ∀ k, (∀ program, sdk_Program_fromString program_source = Return program →
                          k ≠ sdk_Program_id program +:+ "/" +:+ aleoFunction) →
              c2 !! k = c !! k).
Proof.
  intros (pm & kp & Hpm & Hkp & ->)%manager_cache_inv.
  pose proof (manager_cache_lookup env (heap w) pm kp Hpm Hkp) as Hsame.
  pose proof (λ kp', manager_cache_store env (heap w) pm kp kp' Hpm Hkp) as Hstore.
  destruct w as [h n c p], env as [kp0 pm0 acct0].
  cbn [heap programManager] in *. split.
  - unfold synthesizeKeys. run. repeat (fork; run);
      first [ by exists (cache kp) | idtac ].
    eexists. split; [apply Hstore|]. simpl. intros k Hk.
    rewrite lookup_insert_ne; [done|]. intros <-. by eapply Hk.
  - unfold localProgramExecution. run. repeat (fork; run);
      first [ by exists (cache kp) | idtac ].
    eexists. split; [apply Hstore|]. simpl.
    match goal with E : negb (bool_decide _) = true |- _ =>
      apply negb_true_iff, bool_decide_eq_false in E;
      rewrite <- eq_None_not_Some in E end.
    split; [by apply insert_subseteq|].
    intros k Hk. rewrite lookup_insert_ne; [done|]. intros <-. by eapply Hk.
Qed.

(** *** The module and its fetch *)

(** X7: how the evaluation of the module fails.  If [initThreadPool]
    rejects, nothing else is called and the world is untouched.  If
    [new Account()] throws, the key provider already exists with caching on
    and its fetch is already pending, but nothing is exposed.  The module
    evaluates to its bindings exactly when both complete. *)
Theorem module_evaluation_failures w :
  (∀ e, sdk_initThreadPool = Throw e →
        worker w = {| result := Throw e; final := w; trace := [CInitThreadPool] |})
  ∧ (∀ e, sdk_initThreadPool = Return () →
          sdk_newAccount None (rng w) = Throw e →
          result (worker w) = Throw e
          ∧ pending (final (worker w)) =
              (pending w ++ [(fresh (dom (heap w)), prover_url, verifier_url)])%list
          ∧ (∃ kp, heap (final (worker w)) !! fresh (dom (heap w))
                   = Some (OKeyProvider kp)
                   ∧ cacheOption kp = true)
          ∧ Forall (λ c, is_expose c = false) (trace (worker w)))
  ∧ ((∃ env, result (worker w) = Return env) ↔
     sdk_initThreadPool = Return () ∧ ∃ a, sdk_newAccount None (rng w) = Return a).
Proof.
  destruct w as [h n c p]. split; [|split].
  - intros e He. unfold worker. run. rewrite He. by run.
  - intros e Hinit Hacc. unfold worker. run. rewrite Hinit. run.
    repeat (look; run). cbn [rng] in Hacc. rewrite Hacc. run.
    split; [done|]. split; [done|]. split; [|by repeat constructor].
    eexists. split; [rewrite lookup_insert_ne by fresh_ne; apply lookup_insert_eq|].
    reflexivity.
  - unfold worker. run. destruct sdk_initThreadPool as [[]|e]; run.
    + repeat (look; run). destruct (sdk_newAccount None n) as [a|e]; run.
      * repeat (look; run). split; [eauto|]. intros _. eauto.
      * split; [by intros [? ?]|]. by intros [_ [? ?]].
    + split; [by intros [? ?]|]. by intros [? _].
Qed.

(** Two references differ when one was fresh for a heap where the other
    was live, whichever comes first. *)
Ltac fresh_apart :=
  first [ apply fresh_dom_ne; in_dom | apply not_eq_sym, fresh_dom_ne; in_dom ].

(** What the module leaves when it evaluates. *)
Lemma worker_bindings w env :
  result (worker w) = Return env →
  heap (final (worker w)) !! programManager env
    = Some (OProgramManager (module_manager env))
  ∧ (∃ a, sdk_newAccount None (rng w) = Return a
          ∧ heap (final (worker w)) !! account env = Some (OAccount a))
  ∧ pending (final (worker w)) = (pending w ++ [module_fetch env])%list.
Proof.
  destruct w as [h n c p]. unfold worker. run.
  destruct sdk_initThreadPool; run; [|done].
  repeat (look; run). destruct (sdk_newAccount None n) as [acct|e] eqn:Ha; run; [|done].
  repeat (look; run). intros [= <-]. unfold module_manager, module_fetch. run.
  split; [apply lookup_insert_eq|]. split; [|reflexivity].
  exists acct. split; [done|]. rewrite lookup_insert_ne by fresh_apart.
  apply lookup_insert_eq.
Qed.

(** A settlement takes its fetch off the pending list, whatever comes of
    it. *)
Lemma settle_pending i w :
  pending (final (settle i w)) = (take i (pending w) ++ drop (S i) (pending w))%list.
Proof.
  destruct w as [h n c p]. unfold settle. run.
  destruct (p !! i) as [[[this proverUrl] verifierUrl]|]; run; [|done].
  destruct (h !! this) as [[kp| | | |]|]; run; try done.
  by destruct (sdk_fetchKeys proverUrl verifierUrl kp) as [[] ?]; run.
Qed.

(** A settlement on a live key provider never throws and calls nothing: an
    error of the fetch is caught and written to the console. *)
Lemma settle_returns i w :
  (∀ this proverUrl verifierUrl,
     pending w !! i = Some (this, proverUrl, verifierUrl) →
     ∃ kp, heap w !! this = Some (OKeyProvider kp)) →
  result (settle i w) = Return () ∧ trace (settle i w) = [].
Proof.
  destruct w as [h n c p]. cbn [pending heap]. intros Hlive. unfold settle. run.
  destruct (p !! i) as [[[this proverUrl] verifierUrl]|]; run; [|done].
  destruct (Hlive _ _ _ eq_refl) as [kp ->]. run.
  by destruct (sdk_fetchKeys proverUrl verifierUrl kp) as [[] ?]; run.
Qed.

(** A settlement changes key providers only. *)
Lemma settle_objects i w l o :
  heap w !! l = Some o → (∀ kp, o ≠ OKeyProvider kp) →
  heap (final (settle i w)) !! l = Some o.
Proof.
  destruct w as [h n c p]. cbn [heap]. intros Hl Ho. unfold settle. run.
  destruct (p !! i) as [[[this proverUrl] verifierUrl]|]; run; [|done].
  destruct (h !! this) as [[kp| | | |]|] eqn:Hthis; run; try done.
  assert (this ≠ l) by (intros ->; naive_solver).
  by destruct (sdk_fetchKeys proverUrl verifierUrl kp) as [[] ?]; run;
    rewrite lookup_insert_ne.
Qed.

Lemma reachable_pending w0 env w calls :
  reachable w0 env w calls → pending w0 = [] →
  pending w = [module_fetch env] ∨ pending w = [].
Proof.
  intros Hr Hw0. induction Hr as [env Hr|env w calls ev _ IH].
  - left. apply worker_bindings in Hr as (_ & _ & ->). by rewrite Hw0.
  - destruct ev as [name args|i]; simpl.
    + by destruct (steady_remote_call env name args w) as [-> _].
    + rewrite settle_pending. destruct IH as [->| ->].
      * destruct i; [by right|left]. simpl. by rewrite ?take_nil, ?drop_nil.
      * right. by rewrite ?take_nil, ?drop_nil.
Qed.

(** X8: the fetch the module starts settles at most once.  In a worker
    started with no fetch pending, at most that one fetch is pending at any
    time; its settlement, on success or on error, never throws and makes no
    call into the SDK; and once nothing is pending, nothing the worker does
    makes a fetch pending again. *)
Theorem fetch_settles_once w0 env w calls :
  reachable w0 env w calls →
  pending w0 = [] →
  (pending w = [module_fetch env] ∨ pending w = [])
  ∧ (∀ i, result (settle i w) = Return () ∧ trace (settle i w) = [])
  ∧ (∀ ev, pending w = [] → pending (final (handle env ev w)) = []).
Proof.
  intros Hr Hw0. pose proof (reachable_pending _ _ _ _ Hr Hw0) as Hp.
  split; [done|]. split.
  - intros i. apply settle_returns. intros this proverUrl verifierUrl Hi.
    destruct (reachable_wired _ _ _ _ Hr) as (pm & kp & _ & _ & Hkp & _).
    destruct Hp as [Hp|Hp]; rewrite Hp in Hi.
    + apply list_elem_of_lookup_2, list_elem_of_singleton in Hi.
      injection Hi as -> _ _. eauto.
    + by rewrite lookup_nil in Hi.
  - intros ev Hnil.
    destruct (reachable_pending w0 env _ _ (reachable_step w0 env w calls ev Hr) Hw0)
      as [Hq|Hq]; [|done].
    destruct ev as [name args|i]; simpl in *.
    + destruct (steady_remote_call env name args w) as [Hsame _]. congruence.
    + rewrite settle_pending, Hnil in Hq. by rewrite ?take_nil, ?drop_nil in Hq.
Qed.

(** X9: nothing the worker does after its module is evaluated changes the
    module-level program manager or account: the manager keeps its host, its
    key provider and the account the module set, so the account that
    [deployProgram] builds never becomes the worker's. *)
Theorem module_bindings_never_change w0 env w calls :
  reachable w0 env w calls →
  heap w !! programManager env = Some (OProgramManager (module_manager env))
  ∧ ∃ a, sdk_newAccount None (rng w0) = Return a
         ∧ heap w !! account env = Some (OAccount a).
Proof.
  induction 1 as [env Hr|env w calls ev _ (Hpm & a & Ha & Hacct)].
  - apply worker_bindings in Hr as (Hpm & Hacct & _). by split.
  - destruct ev as [name args|i]; simpl.
    + destruct (steady_remote_call env name args w) as [_ Hobj].
      destruct (Hobj _ _ Hpm) as (? & -> & ->).
      destruct (Hobj _ _ Hacct) as (? & -> & ->). eauto.
    + split; [by apply settle_objects|]. exists a. split; [done|].
      by apply settle_objects.
Qed.

(** X10: what [deploy] is called on.  When the account is built,
    [deployProgram] deploys through a program manager for the explorer host
    whose key provider is a new one, with caching on and the cache of a
    newly constructed provider, so that nothing an earlier deployment or the
    worker has cached is seen, and whose record provider is built on the
    deploying account and a client of the same host.  Every object that
    existed before the call is as it was when [deploy] runs. *)
Theorem deploy_uses_new_caching_provider program w acc :
  sdk_newAccount (Some "user1PrivateKey") (rng w) = Return acc →
  ∃ h' pm m rp a nc,
    CDeploy pm program fee ∈ trace (deployProgram program w)
    ∧ result (deployProgram program w) = (sdk_deploy h' pm program fee).1
    ∧ h' !! pm = Some (OProgramManager m)
    ∧ pm_host m = api_host
    ∧ (pm_keyProvider m ∉ dom (heap w))
    ∧ h' !! pm_keyProvider m =
        Some (OKeyProvider {| cacheOption := true; cache := cache sdk_newKeyProvider |})
    ∧ pm_recordProvider m = Some rp
    ∧ h' !! rp = Some (ORecordProvider a nc)
    ∧ h' !! nc = Some (ONetworkClient api_host)
    ∧ pm_account m = Some a
    ∧ h' !! a = Some (OAccount acc)
    ∧ (∀ l, l ∈ dom (heap w) → h' !! l = heap w !! l).
Proof.
  intros Hacc. pose proof (deployProgram_run program w) as Hrun.
  cbv zeta in Hrun. rewrite Hacc in Hrun. rewrite Hrun. cbn [trace result].
  eexists _, _, _, _, _, _.
  split; [elem|]. split; [reflexivity|]. split; [by look|]. split; [done|].
  cbn [pm_keyProvider pm_recordProvider pm_account].
  split; [apply is_fresh|]. split; [by repeat look|]. split; [done|].
  split; [by repeat look|]. split; [by repeat look|]. split; [done|].
  split; [by repeat look|].
  intros l Hl. by rewrite !lookup_insert_ne by fresh_ne.
Qed.
End Properties.

(** ** The entry module of the SDK *)

Section IndexProperties.
Import Index.

(** C5, as the module is written: [index.js] has six lines, four import
    statements, the export statement and a source-map comment.  It exports
    exactly [Account], [Address], [AleoNetworkClient], [DevelopmentClient],
    [PrivateKey], [Signature] and [ViewKey]; [Address], [PrivateKey],
    [Signature] and [ViewKey] come from the package ["@aleohq/wasm"], and
    [Account], [AleoNetworkClient] and [DevelopmentClient] from the SDK's
    own modules [./account], [./node_connection] and
    [./development_client]. *)
Theorem index_reexports :
  length index_js = 6
  ∧ filter (λ l, is_statement l = true) index_js =
      [ LImport ["Account"] "./account";
        LImport ["AleoNetworkClient"] "./node_connection";
        LImport ["DevelopmentClient"] "./development_client";
        LImport ["Address"; "PrivateKey"; "Signature"; "ViewKey"] "@aleohq/wasm";
        LExport (exports index_js) ]
  ∧ exports index_js =
      ["Account"; "Address"; "AleoNetworkClient"; "DevelopmentClient";
       "PrivateKey"; "Signature"; "ViewKey"]
  ∧ origin index_js <$> exports index_js =
      [ Some "./account"; Some "@aleohq/wasm"; Some "./node_connection";
        Some "./development_client"; Some "@aleohq/wasm"; Some "@aleohq/wasm";
        Some "@aleohq/wasm" ]
  ∧ is_relative <$> ["./account"; "./node_connection"; "./development_client";
                     "@aleohq/wasm"] = [true; true; true; false]
  ∧ (∀ name, origin index_js name = Some "@aleohq/wasm" ↔
             name ∈ ["Address"; "PrivateKey"; "Signature"; "ViewKey"]).
Proof.
  repeat split; try reflexivity.
  - unfold index_js, origin. intros Ho.
    repeat case_bool_decide; try discriminate Ho; done.
  - intros Hn. repeat (apply elem_of_cons in Hn as [->|Hn]); try reflexivity.
    by apply elem_of_nil in Hn.
Qed.

(** The module is not two lines long, counted as lines or as statements,
    and the classes that do not come from the WASM package come from
    relative modules, not from a package. *)
Lemma index_js_is_not_two_lines :
  length index_js ≠ 2
  ∧ length (filter (λ l, is_statement l = true) index_js) ≠ 2
  ∧ Forall (λ name, ∃ s, origin index_js name = Some s ∧ is_relative s = true)
           ["Account"; "AleoNetworkClient"; "DevelopmentClient"].
Proof.
  split; [by vm_compute|]. split; [by vm_compute|].
  repeat constructor; by eexists.
Qed.
End IndexProperties.

(** ** Runs of the worker on the small SDK *)

Section Runs.
Import Toy.

Example started_env : result (worker w0) = Return env.
Proof. vm_compute. reflexivity. Qed.

Example started_calls : trace (worker w0) = module_calls env.
Proof. vm_compute. reflexivity. Qed.

Example first_execution_calls :
  stages (trace (localProgramExecution env "tree_mnist_2.aleo" "main" ["1field"] started))
  = [Parsing; Executing; Extracting]
  ∧ filter (λ c, is_cacheKeys c = true)
      (trace (localProgramExecution env "tree_mnist_2.aleo" "main" ["1field"] started))
    = [CCacheKeys 0 "tree_mnist_2.aleo/main" ("prover/main", "verifier/main")].
Proof. split; vm_compute; reflexivity. Qed.

Example unparsed_program_stops :
  localProgramExecution env "" "main" [] started =
  {| result := Throw (Error "parse"); final := started;
     trace := [CProgramFromString ""] |}.
Proof. vm_compute. reflexivity. Qed.

Example deploy_calls :
  trace (deployProgram "hello.aleo" started) =
  [ CNewKeyProvider 3; CUseCache 3 true;
    CNewNetworkClient 4 api_host;
    CNewAccount (Some "user1PrivateKey");
    CNewRecordProvider 6 5 4;
    CNewProgramManager 7 api_host 3 (Some 6);
    CSetAccount 7 5;
    CDeploy 7 "hello.aleo" fee ]
  ∧ manager_cache env (heap (final (deployProgram "hello.aleo" started))) = Some ∅.
Proof. split; vm_compute; reflexivity. Qed.

Example inherited_name_runs_no_method :
  remote_call env "toString" [] started =
  {| result := Return (VString "[object Object]"); final := started; trace := [] |}.
Proof. vm_compute. reflexivity. Qed.

Example unknown_name_throws :
  remote_call env "transfer" [VString "hello.aleo"] started =
  {| result := Throw (Error "TypeError"); final := started; trace := [] |}.
Proof. vm_compute. reflexivity. Qed.

Example further_arguments_ignored :
  remote_call env "verifyExecution" [VString "proof"; VBool true] started =
  remote_call env "verifyExecution" [VString "proof"] started.
Proof. reflexivity. Qed.


(** A second local execution of [main] finds its keys cached: it stores no
    key and leaves the heap as it is. *)
Lemma cached_run_stores_nothing :
  filter (λ c, is_cacheKeys c = true)
    (trace (localProgramExecution env "tree_mnist_2.aleo" "main" ["2field"] warm)) = []
  ∧ heap (final (localProgramExecution env "tree_mnist_2.aleo" "main" ["2field"] warm))
    = heap warm.
Proof.
  edestruct (no_synthesis_when_keys_cached
               env "tree_mnist_2.aleo" "main" ["2field"] warm "tree_mnist_2.aleo")
    as (_ & _ & Hnone & Hheap & _).
  - reflexivity.
  - reflexivity.
  - reflexivity.
  - eexists. reflexivity.
  - split; [exact Hnone | exact Hheap].
Defined.

(** After the module is evaluated, its [fetchKeys] promise settles and a
    program is deployed, the worker is still wired for caching. *)
Lemma wired_after_settle_and_deploy :
  wired env
    (heap (final (handle env (Invoke "deployProgram" [VString "hello.aleo"])
                    (final (handle env (Settle 0) started))))).
Proof.
  refine (proj2 (proj2 (caching_wired_before_methods w0 env _ _ _))).
  apply reachable_step. apply reachable_step. apply reachable_start.
  vm_compute. reflexivity.
Defined.

(** A first call of [synthesizeKeys] for [main] stores its keys under
    ["tree_mnist_2.aleo/main"]. *)
Lemma synthesized_keys_are_keyed :
  ∃ program,
    sdk_Program_fromString "tree_mnist_2.aleo" = Return program
    ∧ "tree_mnist_2.aleo/main" = sdk_Program_id program +:+ "/" +:+ "main".
Proof.
  destruct (cache_key_is_program_id_and_function
              env "tree_mnist_2.aleo" "main" [] started) as (Hkeyed & _).
  apply (Forall_lookup_1 _ _ 4
           (CCacheKeys (H := types) 0 "tree_mnist_2.aleo/main"
                       ("prover/main", "verifier/main")))
    in Hkeyed; [|vm_compute; reflexivity].
  exact (Hkeyed _ eq_refl).
Defined.

(** A local execution of [main] on the started worker returns the outputs
    and the execution string of its one execution. *)
Lemma local_execution_returns :
  result (localProgramExecution env "tree_mnist_2.aleo" "main" ["1field"; "2field"] started)
  = Return ("1field,2field", "11field,2field").
Proof.
  refine (proj2 (proj2 (proj2
            (pipeline_order env "tree_mnist_2.aleo" "main" ["1field"; "2field"] started)))
            "tree_mnist_2.aleo" _ _ ("1field,2field", true) eq_refl _ _ _ _).
  - vm_compute. reflexivity.
  - vm_compute. reflexivity.
  - reflexivity.
  - intros _. by eexists _, _, _.
Defined.

(** The execution string that a local execution returns verifies. *)
Lemma returned_execution_verifies :
  result (verifyExecution env "11field,2field" warm) = Return true.
Proof.
  destruct (execution_is_proven env "tree_mnist_2.aleo" "main" ["1field"; "2field"] started)
    as [_ Hret].
  destruct (Hret "1field,2field" "11field,2field" eq_refl)
    as (args & [out proof] & _ & _ & _ & Hstr & Hout & Hverify).
  simpl in Hstr, Hout. subst out. destruct proof; [|discriminate Hstr].
  by rewrite (Hverify eq_refl warm).
Defined.

(** After [synthesizeKeys] for [main], a deployment and a new private key, a
    local execution of [main] leaves the heap as it is. *)
Lemma warmed_by_synthesizeKeys :
  heap (final (localProgramExecution env "tree_mnist_2.aleo" "main" ["1field"]
                 (serve env [("deployProgram", [VString "hello.aleo"]);
                             ("getPrivateKey", [])]
                    (final (synthesizeKeys env "tree_mnist_2.aleo" "main" started)))))
  = heap (serve env [("deployProgram", [VString "hello.aleo"]); ("getPrivateKey", [])]
            (final (synthesizeKeys env "tree_mnist_2.aleo" "main" started))).
Proof.
  refine (proj2 (synthesizeKeys_warms_cache env "tree_mnist_2.aleo" "main" started ()
                   [("deployProgram", [VString "hello.aleo"]); ("getPrivateKey", [])]
                   ["1field"] _)).
  vm_compute. reflexivity.
Defined.

(** After a first local execution of [main] and a deployment, a second one
    with other inputs stores nothing. *)
Lemma second_execution_stores_nothing :
  Forall no_synthesis
    (trace (localProgramExecution env "tree_mnist_2.aleo" "main" ["2field"]
              (serve env [("deployProgram", [VString "hello.aleo"])] warm))).
Proof.
  refine (proj1 (execution_synthesizes_at_most_once
                   env "tree_mnist_2.aleo" "main" started ("1field", "11field")
                   ["1field"] [("deployProgram", [VString "hello.aleo"])] ["2field"] _)).
  vm_compute. reflexivity.
Defined.

(** A local execution of another function keeps the keys of [main]. *)
Lemma other_function_keeps_main :
  ∃ c2,
    manager_cache env
      (heap (final (localProgramExecution env "tree_mnist_2.aleo" "other" [] warm)))
    = Some c2
    ∧ c2 !! "tree_mnist_2.aleo/main" = Some ("prover/main", "verifier/main").
Proof.
  destruct (cache_entries_kept env "tree_mnist_2.aleo" "other" [] warm
              {[ "tree_mnist_2.aleo/main" := ("prover/main", "verifier/main") ]})
    as [_ (c2 & Hc2 & Hsub & _)].
  - vm_compute. reflexivity.
  - exists c2. split; [exact Hc2|].
    eapply lookup_weaken; [|exact Hsub]. reflexivity.
Defined.

(** The module's fetch settles without a throw. *)
Lemma module_fetch_settles :
  result (settle 0 started) = Return () ∧ trace (settle 0 started) = [].
Proof.
  refine (proj1 (proj2 (fetch_settles_once w0 env started _ _ _)) 0).
  - apply reachable_start. vm_compute. reflexivity.
  - reflexivity.
Defined.

(** After a deployment and the settlement of the fetch, the worker's program
    manager is the one the module built. *)
Lemma manager_after_deploy_and_settle :
  heap (final (handle env (Settle 0)
                 (final (handle env (Invoke "deployProgram" [VString "hello.aleo"])
                           started))))
    !! programManager env
  = Some (OProgramManager (module_manager env)).
Proof.
  refine (proj1 (module_bindings_never_change w0 env _ _ _)).
  apply reachable_step. apply reachable_step. apply reachable_start.
  vm_compute. reflexivity.
Defined.

(** A deployment from the started worker goes through a manager for the
    explorer host on a new key provider. *)
Lemma deploy_on_new_provider :
  ∃ h' pm m,
    result (deployProgram "hello.aleo" warm) = (sdk_deploy h' pm "hello.aleo" fee).1
    ∧ h' !! pm = Some (OProgramManager m)
    ∧ pm_host m = api_host
    ∧ pm_keyProvider m ∉ dom (heap warm).
Proof.
  destruct (deploy_uses_new_caching_provider "hello.aleo" warm "user1PrivateKey")
    as (h' & pm & m & rp & a & nc & _ & Hres & Hpm & Hhost & Hnew & _).
  - reflexivity.
  - exists h', pm, m. exact (conj Hres (conj Hpm (conj Hhost Hnew))).
Defined.
End Runs.
